(** * ReceiptPraiser: the response-normalisation path of [server.js]

    A shallow embedding of [extractJsonMaybe], [callGemini] and the
    [/analyze] handler, with the parts of the JavaScript runtime they rest
    on: strings as sequences of UTF-16 code units, [String.prototype.trim],
    [indexOf], [lastIndexOf], [slice], a backtracking matcher for the
    regular-expression fragment the fence pattern is written in, and
    [JSON.parse]. *)

From Stdlib Require Import List NArith ZArith Bool Lia String Ascii DecimalString.
Import ListNotations.

Open Scope N_scope.

(** ** Strings *)

(** A JavaScript string is a finite sequence of UTF-16 code units. *)
Definition code_unit := N.
Definition jsstring := list code_unit.

(** [js] reads an ASCII literal as a JavaScript string. *)
Definition js (s : string) : jsstring :=
  List.map N_of_ascii (list_ascii_of_string s).

(** [jsq] is [js] with every apostrophe standing for the double quote
    (code unit 34), so that JSON texts can be written as literals. *)
Definition jsq (s : string) : jsstring :=
  List.map (fun c => if c =? 39 then 34 else c) (js s).

Fixpoint eqs (a b : jsstring) : bool :=
  match a, b with
  | [], [] => true
  | x :: a', y :: b' => (x =? y) && eqs a' b'
  | _, _ => false
  end.

(** ECMAScript WhiteSpace and LineTerminator code points: what [\s] in a
    pattern matches and what [trim] strips. *)
Definition is_space (c : code_unit) : bool :=
  (c =? 9) || (c =? 10) || (c =? 11) || (c =? 12) || (c =? 13) || (c =? 32)
  || (c =? 160) || (c =? 5760) || ((8192 <=? c) && (c <=? 8202))
  || (c =? 8232) || (c =? 8233) || (c =? 8239) || (c =? 8287)
  || (c =? 12288) || (c =? 65279).

Fixpoint trimStart (s : jsstring) : jsstring :=
  match s with
  | c :: s' => if is_space c then trimStart s' else s
  | [] => []
  end.

Fixpoint trimEnd (s : jsstring) : jsstring :=
  match s with
  | c :: s' =>
      match trimEnd s' with
      | [] => if is_space c then [] else [c]
      | t => c :: t
      end
  | [] => []
  end.

(** [String.prototype.trim]. *)
Definition trim (s : jsstring) : jsstring := trimEnd (trimStart s).

(** [starts_with pat s]: [pat] occurs in [s] at position 0. *)
Fixpoint starts_with (pat s : jsstring) : bool :=
  match pat, s with
  | [], _ => true
  | p :: pat', c :: s' => (p =? c) && starts_with pat' s'
  | _ :: _, [] => false
  end.

Fixpoint indexOf_from (pat s : jsstring) (i : Z) : Z :=
  if starts_with pat s then i
  else match s with
       | [] => (-1)%Z
       | _ :: s' => indexOf_from pat s' (i + 1)%Z
       end.

(** [text.indexOf(pat)]: the least position at which [pat] occurs, or -1. *)
Definition indexOf (text pat : jsstring) : Z := indexOf_from pat text 0%Z.

Fixpoint lastIndexOf_from (pat s : jsstring) (i best : Z) : Z :=
  let best' := if starts_with pat s then i else best in
  match s with
  | [] => best'
  | _ :: s' => lastIndexOf_from pat s' (i + 1)%Z best'
  end.

(** [text.lastIndexOf(pat)]: the greatest position at which [pat] occurs,
    or -1. *)
Definition lastIndexOf (text pat : jsstring) : Z :=
  lastIndexOf_from pat text 0%Z (-1)%Z.

(** [text.slice(a, b)]: a negative bound counts from the end, both bounds
    are clamped to the string, an empty or reversed range gives "". *)
Definition slice (text : jsstring) (a b : Z) : jsstring :=
  let len := Z.of_nat (List.length text) in
  let from := if (a <? 0)%Z then Z.max (len + a) 0 else Z.min a len in
  let to := if (b <? 0)%Z then Z.max (len + b) 0 else Z.min b len in
  firstn (Z.to_nat (Z.max (to - from) 0)) (skipn (Z.to_nat from) text).

(** ** Regular expressions

    The fragment of ECMAScript patterns that the fence pattern uses:
    pattern characters, sequencing, the greedy optional [r?], the greedy
    and the lazy star over a character class, and one capturing group.
    Matching is the backtracking, continuation-passing matcher of the
    language definition: the continuation [k] is the rest of the pattern,
    and a quantifier tries its alternatives in priority order until [k]
    succeeds. *)

Inductive regex : Type :=
| Eps
| Chr (c : code_unit)
| Seq (r1 r2 : regex)
| Opt (r : regex)
| StarG (p : code_unit -> bool)
| StarL (p : code_unit -> bool)
| Grp (r : regex).

(** Canonicalize under the [i] flag (no [u] flag): the upper-case mapping,
    which on a non-ASCII unit never yields an ASCII unit; for the ASCII
    pattern characters used here only the ASCII letters fold. *)
Definition canonicalize (c : code_unit) : code_unit :=
  if (97 <=? c) && (c <=? 122) then c - 32 else c.

Definition chr_eq (ignoreCase : bool) (p c : code_unit) : bool :=
  if ignoreCase then canonicalize p =? canonicalize c else p =? c.

Section Matcher.
Context {R : Type}.

(** [p*] greedy: the longest run first, then shorter ones. *)
Fixpoint star_greedy (p : code_unit -> bool) (s : jsstring)
    (k : jsstring -> option R) : option R :=
  match s with
  | c :: s' =>
      if p c then
        match star_greedy p s' k with
        | Some v => Some v
        | None => k s
        end
      else k s
  | [] => k []
  end.

(** [p*?] lazy: the empty run first, then longer ones. *)
Fixpoint star_lazy (p : code_unit -> bool) (s : jsstring)
    (k : jsstring -> option R) : option R :=
  match k s with
  | Some v => Some v
  | None =>
      match s with
      | c :: s' => if p c then star_lazy p s' k else None
      | [] => None
      end
  end.

(** [rx i r s cap k]: match [r] at the head of [s], the capture so far
    being [cap], then continue with [k] on what is left. *)
Fixpoint rx (ignoreCase : bool) (r : regex) (s : jsstring)
    (cap : option jsstring)
    (k : jsstring -> option jsstring -> option R) : option R :=
  match r with
  | Eps => k s cap
  | Chr p =>
      match s with
      | c :: s' => if chr_eq ignoreCase p c then k s' cap else None
      | [] => None
      end
  | Seq r1 r2 => rx ignoreCase r1 s cap (fun s1 c1 => rx ignoreCase r2 s1 c1 k)
  | Opt r1 =>
      match rx ignoreCase r1 s cap k with
      | Some v => Some v
      | None => k s cap
      end
  | StarG p => star_greedy p s (fun s1 => k s1 cap)
  | StarL p => star_lazy p s (fun s1 => k s1 cap)
  | Grp r1 =>
      rx ignoreCase r1 s cap
        (fun s1 _ => k s1 (Some (firstn (List.length s - List.length s1) s)))
  end.
End Matcher.

(** A literal run of pattern characters. *)
Definition lit (l : jsstring) : regex :=
  fold_right (fun c r => Seq (Chr c) r) Eps l.

(** The result of a successful match: where it starts, what it spans
    ([m[0]]) and the capture ([m[1]], [None] for undefined). *)
Record match_result : Type := MatchResult {
  m_index : nat;
  m_0 : jsstring;
  m_1 : option jsstring
}.

Definition exec_at (ignoreCase : bool) (r : regex) (s : jsstring)
    : option (jsstring * option jsstring) :=
  rx ignoreCase r s None (fun rest cap => Some (rest, cap)).

Fixpoint match_from (ignoreCase : bool) (r : regex) (s : jsstring) (i : nat)
    : option match_result :=
  match exec_at ignoreCase r s with
  | Some (rest, cap) =>
      Some (MatchResult i (firstn (List.length s - List.length rest) s) cap)
  | None =>
      match s with
      | [] => None
      | _ :: s' => match_from ignoreCase r s' (S i)
      end
  end.

(** [text.match(re)] for a pattern without the [g] flag: the match at the
    least start position, or [None] for null. *)
Definition String_match (text : jsstring) (ignoreCase : bool) (r : regex)
    : option match_result :=
  match_from ignoreCase r text 0.

(** ** [extractJsonMaybe] *)

Definition any (_ : code_unit) : bool := true.

Definition ticks : jsstring := js "```".

(** [/```(?:json)?\s*([\s\S]*?)\s*```/i] *)
Definition fence_re : regex :=
  Seq (lit ticks)
   (Seq (Opt (lit (js "json")))
    (Seq (StarG is_space)
     (Seq (Grp (StarL any))
      (Seq (StarG is_space) (lit ticks))))).

Definition truthy (s : jsstring) : bool :=
  match s with [] => false | _ => true end.

(** The truthy values [fence && fence[1]] can take: the capture of a
    match, when it is a non-empty string. *)
Definition fence_and_1 (fence : option match_result) : option jsstring :=
  match fence with
  | Some m =>
      match m_1 m with
      | Some g => if truthy g then Some g else None
      | None => None
      end
  | None => None
  end.

Definition lbrace : jsstring := js "{".
Definition rbrace : jsstring := js "}".

(** [None] stands for null.  The fence is tried first; brace scanning
    follows when the match is null or its capture is empty. *)
Definition extractJsonMaybe (text : jsstring) : option jsstring :=
  if negb (truthy text) then None
  else
    let fence := String_match text true fence_re in
    match fence_and_1 fence with
    | Some g => Some (trim g)
    | None =>
        let first := indexOf text lbrace in
        let last := lastIndexOf text rbrace in
        if negb (first =? -1)%Z && negb (last =? -1)%Z && (last >? first)%Z
        then Some (trim (slice text first (last + 1)%Z))
        else None
    end.

(** ** JSON values and [JSON.parse] *)

(** The values [JSON.parse] builds.  A number is kept as the characters of
    its literal: its conversion to a binary64 value is outside the model,
    and no operation below inspects it.  An object lists its properties in
    creation order. *)
#[warnings="-register-all"]
Inductive value : Type :=
| JNull
| JBool (b : bool)
| JNumber (literal : jsstring)
| JString (s : jsstring)
| JArray (items : list value)
| JObject (props : list (jsstring * value)).

Fixpoint lookup (key : jsstring) (props : list (jsstring * value))
    : option value :=
  match props with
  | [] => None
  | (k, v) :: rest => if eqs k key then Some v else lookup key rest
  end.

(** CreateDataProperty: a repeated key overwrites the value in place, a new
    key is added after the others. *)
Fixpoint set_prop (key : jsstring) (v : value) (props : list (jsstring * value))
    : list (jsstring * value) :=
  match props with
  | [] => [(key, v)]
  | (k, w) :: rest =>
      if eqs k key then (k, v) :: rest else (k, w) :: set_prop key v rest
  end.

(** JSON white space: tab, line feed, carriage return, space. *)
Definition json_ws (c : code_unit) : bool :=
  (c =? 9) || (c =? 10) || (c =? 13) || (c =? 32).

Fixpoint skip_ws (s : jsstring) : jsstring :=
  match s with
  | c :: s' => if json_ws c then skip_ws s' else s
  | [] => []
  end.

Definition is_digit (c : code_unit) : bool := (48 <=? c) && (c <=? 57).

(** The longest run of digits at the head of [s], and what follows it. *)
Fixpoint span_digits (s : jsstring) : jsstring * jsstring :=
  match s with
  | c :: s' =>
      if is_digit c
      then let (ds, r) := span_digits s' in (c :: ds, r)
      else ([], s)
  | [] => ([], [])
  end.

Definition hex_val (c : code_unit) : option N :=
  if is_digit c then Some (c - 48)
  else if (97 <=? c) && (c <=? 102) then Some (c - 87)
  else if (65 <=? c) && (c <=? 70) then Some (c - 55)
  else None.

(** The code unit of [\uXXXX]. *)
Definition hex4 (a b c d : code_unit) : option code_unit :=
  match hex_val a, hex_val b, hex_val c, hex_val d with
  | Some x, Some y, Some z, Some w => Some (((x * 16 + y) * 16 + z) * 16 + w)
  | _, _, _, _ => None
  end.

(** The character a one-letter escape stands for: quote, backslash,
    slash, b, f, n, r, t. *)
Definition unescape (e : code_unit) : option code_unit :=
  if e =? 34 then Some 34
  else if e =? 92 then Some 92
  else if e =? 47 then Some 47
  else if e =? 98 then Some 8
  else if e =? 102 then Some 12
  else if e =? 110 then Some 10
  else if e =? 114 then Some 13
  else if e =? 116 then Some 9
  else None.

Definition cons_to (c : code_unit) (r : option (jsstring * jsstring))
    : option (jsstring * jsstring) :=
  match r with
  | Some (str, rest) => Some (c :: str, rest)
  | None => None
  end.

(** The characters of a string literal after its opening quote, decoded,
    and what follows the closing quote.  A control character, an unknown
    escape and a missing closing quote are errors. *)
Fixpoint lex_string (s : jsstring) : option (jsstring * jsstring) :=
  match s with
  | [] => None
  | c :: r =>
      if c =? 34 then Some ([], r)
      else if c =? 92 then
        match r with
        | [] => None
        | e :: r1 =>
            if e =? 117 then
              match r1 with
              | a :: b :: c' :: d :: r2 =>
                  match hex4 a b c' d with
                  | Some u => cons_to u (lex_string r2)
                  | None => None
                  end
              | _ => None
              end
            else
              match unescape e with
              | Some u => cons_to u (lex_string r1)
              | None => None
              end
        end
      else if c <? 32 then None
      else cons_to c (lex_string r)
  end.

(** The parts of a number literal, each with what follows it: an optional
    minus sign; an integer part, either 0 alone or a non-zero digit and
    more digits; an optional fraction, a dot and at least one digit; an
    optional exponent, e or E, an optional sign and at least one digit. *)
Definition lex_sign (s : jsstring) : jsstring * jsstring :=
  match s with
  | c :: r => if c =? 45 then ([c], r) else ([], s)
  | [] => ([], s)
  end.

Definition lex_int (s : jsstring) : option (jsstring * jsstring) :=
  match s with
  | c :: r =>
      if c =? 48 then Some ([c], r)
      else if is_digit c
           then let (ds, r') := span_digits r in Some (c :: ds, r')
           else None
  | [] => None
  end.

Definition lex_frac (s : jsstring) : option (jsstring * jsstring) :=
  match s with
  | c :: r =>
      if c =? 46 then
        match span_digits r with
        | ([], _) => None
        | (ds, r') => Some (c :: ds, r')
        end
      else Some ([], s)
  | [] => Some ([], s)
  end.

Definition lex_exp_sign (s : jsstring) : jsstring * jsstring :=
  match s with
  | c :: r => if (c =? 43) || (c =? 45) then ([c], r) else ([], s)
  | [] => ([], s)
  end.

Definition lex_exp (s : jsstring) : option (jsstring * jsstring) :=
  match s with
  | e :: r =>
      if (e =? 101) || (e =? 69) then
        let (sg, r1) := lex_exp_sign r in
        match span_digits r1 with
        | ([], _) => None
        | (ds, r') => Some (e :: sg ++ ds, r')
        end
      else Some ([], s)
  | [] => Some ([], s)
  end.

(** A number literal and what follows it. *)
Definition lex_number (s : jsstring) : option (jsstring * jsstring) :=
  let (sign, s1) := lex_sign s in
  match lex_int s1 with
  | None => None
  | Some (i, s2) =>
      match lex_frac s2 with
      | None => None
      | Some (f, s3) =>
          match lex_exp s3 with
          | None => None
          | Some (x, s4) => Some (sign ++ i ++ f ++ x, s4)
          end
      end
  end.

Definition lex_word (w : jsstring) (v : value) (s : jsstring)
    : option (value * jsstring) :=
  if starts_with w s then Some (v, skipn (List.length w) s) else None.

(** [eat c s]: what follows [c] at the head of [s]. *)
Definition eat (c : code_unit) (s : jsstring) : option jsstring :=
  match s with
  | x :: r => if x =? c then Some r else None
  | [] => None
  end.

(** One JSON value at the head of [s] (after white space), and what
    follows it.  [parse_items] reads the elements of an array up to its
    closing bracket, [parse_members] the members of an object up to its
    closing brace.  [fuel] bounds the depth of the calls; [JSON_parse]
    gives enough of it. *)
Fixpoint parse_value (fuel : nat) (s : jsstring) : option (value * jsstring) :=
  match fuel with
  | O => None
  | S f =>
      match skip_ws s with
      | [] => None
      | c :: r =>
          if c =? 123 then
            match eat 125 (skip_ws r) with
            | Some r' => Some (JObject [], r')
            | None => parse_members f (skip_ws r) []
            end
          else if c =? 91 then
            match eat 93 (skip_ws r) with
            | Some r' => Some (JArray [], r')
            | None => parse_items f (skip_ws r) []
            end
          else if c =? 34 then
            match lex_string r with
            | Some (str, rest) => Some (JString str, rest)
            | None => None
            end
          else if c =? 110 then lex_word (js "null") JNull (c :: r)
          else if c =? 116 then lex_word (js "true") (JBool true) (c :: r)
          else if c =? 102 then lex_word (js "false") (JBool false) (c :: r)
          else
            match lex_number (c :: r) with
            | Some (n, rest) => Some (JNumber n, rest)
            | None => None
            end
      end
  end
with parse_items (fuel : nat) (s : jsstring) (acc : list value)
    : option (value * jsstring) :=
  match fuel with
  | O => None
  | S f =>
      match parse_value f s with
      | Some (v, r) =>
          match skip_ws r with
          | c :: r1 =>
              if c =? 44 then parse_items f r1 (v :: acc)
              else if c =? 93 then Some (JArray (rev (v :: acc)), r1)
              else None
          | [] => None
          end
      | None => None
      end
  end
with parse_members (fuel : nat) (s : jsstring) (acc : list (jsstring * value))
    : option (value * jsstring) :=
  match fuel with
  | O => None
  | S f =>
      match eat 34 (skip_ws s) with
      | Some r =>
          match lex_string r with
          | Some (key, r1) =>
              match eat 58 (skip_ws r1) with
              | Some r2 =>
                  match parse_value f r2 with
                  | Some (v, r3) =>
                      match skip_ws r3 with
                      | c :: r4 =>
                          if c =? 44
                          then parse_members f r4 (set_prop key v acc)
                          else if c =? 125
                               then Some (JObject (set_prop key v acc), r4)
                               else None
                      | [] => None
                      end
                  | None => None
                  end
              | None => None
              end
          | None => None
          end
      | None => None
      end
  end.

(** [JSON.parse(text)]: the value, or [None] where it throws a
    SyntaxError. *)
Definition JSON_parse (text : jsstring) : option value :=
  match parse_value (2 * List.length text + 1) text with
  | Some (v, rest) =>
      match skip_ws rest with
      | [] => Some v
      | _ :: _ => None
      end
  | None => None
  end.

(** ** The host: process environment, network and engine

    What the program takes from outside itself.  [fetch] is the reply of
    the network to one outbound request.  [Number_toString] (the string of
    a number), [JSON_stringify] and the wording of the errors the engine
    raises are routines of the runtime that the model does not unfold. *)

Record Outbound : Type := MkOutbound {
  url : jsstring;
  method : jsstring;
  content_type : jsstring;
  payload : jsstring
}.

Inductive FetchResult : Type :=
| Rejected (message : jsstring)
| Replied (status : N) (text : jsstring).

(** The errors the engine itself raises: a SyntaxError of [JSON.parse] on
    [text], and the TypeErrors for calling what is no function, reading a
    property of null and converting an object to a string. *)
Inductive fault : Type :=
| BadJson (text : jsstring)
| NotCallable
| NullProperty
| NotPrimitive.

Record Host : Type := MkHost {
  GOOGLE_API_KEY : jsstring;
  fetch : Outbound -> FetchResult;
  Number_toString : jsstring -> jsstring;
  JSON_stringify : value -> jsstring;
  fault_message : fault -> jsstring
}.

(** ** Effects: what a run does to the outside, and how it ends *)

Inductive effect : Type :=
| Fetched (rq : Outbound)
| Logged (message : jsstring).

Inductive outcome (A : Type) : Type :=
| Returned (a : A)
| Thrown (message : jsstring).
Arguments Returned {A} a.
Arguments Thrown {A} message.

(** A computation runs after the effects so far and extends them; it
    returns or throws an [Error] with a message. *)
Definition M (A : Type) : Type := list effect -> outcome A * list effect.

Definition ret {A} (a : A) : M A := fun tr => (Returned a, tr).
Definition throw {A} (message : jsstring) : M A := fun tr => (Thrown message, tr).
Definition bind {A B} (m : M A) (f : A -> M B) : M B :=
  fun tr =>
    match m tr with
    | (Returned a, tr') => f a tr'
    | (Thrown e, tr') => (Thrown e, tr')
    end.
Definition try_catch {A} (m : M A) (handler : jsstring -> M A) : M A :=
  fun tr =>
    match m tr with
    | (Returned a, tr') => (Returned a, tr')
    | (Thrown e, tr') => handler e tr'
    end.
Definition emit (e : effect) : M unit := fun tr => (Returned tt, tr ++ [e]).

Notation "x <- m ;; k" := (bind m (fun x => k))
  (at level 61, m at next level, right associativity).
Notation "m ;;; k" := (bind m (fun _ => k))
  (at level 61, right associativity).

(** ** [callGemini] *)

Definition SYSTEM_INSTRUCTIONS : jsstring := jsq "
You are a precise document analyst. Output one JSON object only. No prose. No code fences.

Detect 'document_type' in 'receipt', 'invoice', or 'other'.

If 'document_type' is 'receipt' or 'invoice', return this object. Missing data becomes empty string or empty array.

{
  'document_type': 'receipt',
  'vendor_name': '',
  'vendor_address': '',
  'vendor_phone': '',
  'date': '',
  'time': '',
  'currency': '',
  'invoice_number': '',
  'order_number': '',
  'payment_method': '',
  'last4': '',
  'items': [
    {'name': '', 'qty': '', 'unit_price': '', 'line_total': '', 'sku': ''}
  ],
  'subtotal': '',
  'taxes': [ {'name': '', 'rate': '', 'amount': ''} ],
  'discounts': [ {'name': '', 'amount': ''} ],
  'fees': [ {'name': '', 'amount': ''} ],
  'tips': '',
  'total': '',
  'notes': '',
  'confidence': {'total': 0, 'items': 0}
}

If the file is not a receipt or invoice, return:
{
  'document_type':'other',
  'title':'',
  'summary':'',
  'notes':''
}

Normalization rules:
1) All money values are plain strings using a dot as decimal separator with two decimals when possible
2) 'qty' is a plain string and prefer an integer when possible
3) If multiple taxes exist, fill the 'taxes' array with one entry per tax, and put the rate number only in 'rate' without the percent sign
4) Compute 'subtotal' as the sum of 'line_total' when possible
5) Compute a candidate grand total as subtotal plus all tax and fee and tip amounts minus all discounts
6) If the printed total and your computed total differ by more than one percent, keep the printed total in 'total' and add a one line warning in 'notes'
".

Definition buildUserPrompt (filename : jsstring) : jsstring :=
  js "Analyze the uploaded file named " ++ filename
  ++ js ". Extract data per the schema. Respond in pure JSON only. No markdown. No backticks.".

(** [a || b] on strings. *)
Definition or_else (a : option jsstring) (b : jsstring) : jsstring :=
  match a with
  | Some (c :: s) => c :: s
  | _ => b
  end.

(** [v.key] on a value that is neither null nor undefined, for a key that
    is no array index and names nothing the prototypes define: an own
    property of an object, undefined ([None]) otherwise. *)
Definition Get (v : value) (key : jsstring) : option value :=
  match v with
  | JObject props => lookup key props
  | _ => None
  end.

(** [v[0]] on a value that is neither null nor undefined. *)
Definition Get_0 (v : value) : option value :=
  match v with
  | JArray items => nth_error items 0
  | JString (c :: _) => Some (JString [c])
  | JObject props => lookup (js "0") props
  | _ => None
  end.

(** One link of an optional chain, [x?.key] or [x?.[0]]: undefined when
    [x] is undefined or null. *)
Definition chain (x : option value) (get : value -> option value)
    : option value :=
  match x with
  | None | Some JNull => None
  | Some v => get v
  end.

Fixpoint join_with (sep : jsstring) (l : list jsstring) : jsstring :=
  match l with
  | [] => []
  | [a] => a
  | a :: rest => a ++ sep ++ join_with sep rest
  end.

Fixpoint all_some {A} (l : list (option A)) : option (list A) :=
  match l with
  | [] => Some []
  | Some a :: rest =>
      match all_some rest with
      | Some r => Some (a :: r)
      | None => None
      end
  | None :: _ => None
  end.

Section ToString.
Variable h : Host.

(** ToString of a value; [None] where it throws a TypeError.  An array
    joins its elements with a comma; an object is [[object Object]]
    unless an own [toString] property, which is never callable, hides
    the inherited method. *)
Fixpoint ToString (v : value) : option jsstring :=
  match v with
  | JNull => Some (js "null")
  | JBool true => Some (js "true")
  | JBool false => Some (js "false")
  | JNumber n => Some (Number_toString h n)
  | JString s => Some s
  | JArray items =>
      let piece e :=
        match e with
        | JNull => Some []
        | _ => ToString e
        end in
      match all_some (List.map piece items) with
      | Some l => Some (join_with (js ",") l)
      | None => None
      end
  | JObject props =>
      match lookup (js "toString") props with
      | Some _ => None
      | None => Some (js "[object Object]")
      end
  end.

(** [Array.prototype.join]: undefined and null elements give the empty
    string, the others their ToString. *)
Definition Array_join (l : list (option value)) (sep : jsstring)
    : option jsstring :=
  let piece e :=
    match e with
    | None | Some JNull => Some []
    | Some v => ToString v
    end in
  match all_some (List.map piece l) with
  | Some pieces => Some (join_with sep pieces)
  | None => None
  end.
End ToString.

(** [p => p.text]: a null element throws. *)
Definition part_text (p : value) : option (option value) :=
  match p with
  | JNull => None
  | _ => Some (Get p (js "text"))
  end.

(** [data?.candidates?.[0]?.content?.parts?.map(p => p.text).join("\n")]:
    undefined ([None]) or a string. *)
Definition reply_text (h : Host) (data : value) : M (option jsstring) :=
  let candidates := chain (Some data) (fun v => Get v (js "candidates")) in
  let candidate := chain candidates Get_0 in
  let content := chain candidate (fun v => Get v (js "content")) in
  let parts := chain content (fun v => Get v (js "parts")) in
  match parts with
  | None | Some JNull => ret None
  | Some (JArray items) =>
      match all_some (List.map part_text items) with
      | None => throw (fault_message h NullProperty)
      | Some texts =>
          match Array_join h texts [10] with
          | Some s => ret (Some s)
          | None => throw (fault_message h NotPrimitive)
          end
      end
  | Some _ => throw (fault_message h NotCallable)
  end.

Definition res_ok (status : N) : bool := (200 <=? status) && (status <=? 299).

Definition endpoint : jsstring :=
  js "https://generativelanguage.googleapis.com/v1beta/models/gemini-1.5-flash-latest:generateContent?key=".

Definition request_body (base64 mime filename : jsstring) : value :=
  JObject
    [(js "contents",
      JArray
        [JObject
           [(js "role", JString (js "user"));
            (js "parts",
             JArray
               [JObject [(js "text", JString SYSTEM_INSTRUCTIONS)];
                JObject [(js "text", JString (buildUserPrompt filename))];
                JObject
                  [(js "inline_data",
                    JObject [(js "mime_type", JString mime);
                             (js "data", JString base64)])]])]]);
     (js "generationConfig", JObject [(js "temperature", JNumber (js "0.2"))])].

(** The decimal digits of an integer. *)
Definition decimal (n : N) : jsstring :=
  js (DecimalString.NilZero.string_of_uint (N.to_uint n)).

Definition callGemini (h : Host) (base64 mime filename : jsstring)
    : M jsstring :=
  if negb (truthy (GOOGLE_API_KEY h)) then throw (js "Missing GOOGLE_API_KEY")
  else
    let rq :=
      MkOutbound (endpoint ++ GOOGLE_API_KEY h) (js "POST")
        (js "application/json")
        (JSON_stringify h (request_body base64 mime filename)) in
    try_catch
      (emit (Fetched rq) ;;;
       match fetch h rq with
       | Rejected message => throw message
       | Replied status t =>
           if negb (res_ok status)
           then throw (js "Gemini HTTP " ++ decimal status ++ js ": " ++ t)
           else
             match JSON_parse t with
             | None => throw (fault_message h (BadJson t))
             | Some data =>
                 joined <- reply_text h data ;;
                 ret (or_else joined (JSON_stringify h data))
             end
       end)
      (fun message => throw (js "Gemini fetch failed: " ++ message)).

(** ** The [/analyze] handler *)

Record File : Type := MkFile {
  originalname : jsstring;
  mimetype : jsstring;
  buffer : list N
}.

(** A request after the upload middleware: [req.file] is undefined when
    the form carries no field named [file]. *)
Record Request : Type := MkRequest { file : option File }.

(** [res.status(code).json(body)]. *)
Record Response : Type := MkResponse {
  code : N;
  body : value
}.

Definition b64_digit (n : N) : code_unit :=
  if n <? 26 then 65 + n
  else if n <? 52 then 97 + (n - 26)
  else if n <? 62 then 48 + (n - 52)
  else if n =? 62 then 43
  else 47.

(** [buffer.toString("base64")] on a buffer of bytes. *)
Fixpoint toString_base64 (bytes : list N) : jsstring :=
  match bytes with
  | a :: b :: c :: rest =>
      b64_digit (a / 4) :: b64_digit (a mod 4 * 16 + b / 16)
      :: b64_digit (b mod 16 * 4 + c / 64) :: b64_digit (c mod 64)
      :: toString_base64 rest
  | [a; b] =>
      [b64_digit (a / 4); b64_digit (a mod 4 * 16 + b / 16);
       b64_digit (b mod 16 * 4); 61]
  | [a] => [b64_digit (a / 4); b64_digit (a mod 4 * 16); 61; 61]
  | [] => []
  end.

Definition fallback (rawText : jsstring) : value :=
  JObject
    [(js "document_type", JString (js "other"));
     (js "title", JString (js "Analysis"));
     (js "summary", JString []);
     (js "notes", JString rawText)].

(** Lines 140 to 148: from the raw reply to the response. *)
Definition respond (rawText : jsstring) : Response :=
  let cleaned := extractJsonMaybe rawText in
  let parsed :=
    match JSON_parse (or_else cleaned rawText) with
    | Some v => v
    | None => fallback rawText
    end in
  MkResponse 200 (JObject [(js "ok", JBool true); (js "data", parsed)]).

(** [err.message || "Server error"]. *)
Definition message_or (message fallback_text : jsstring) : jsstring :=
  or_else (Some message) fallback_text.

Definition analyze (h : Host) (req : Request) : M Response :=
  try_catch
    (match file req with
     | None =>
         ret (MkResponse 400
                (JObject [(js "error", JString (js "No file uploaded"))]))
     | Some f =>
         let base64 := toString_base64 (buffer f) in
         rawText <- callGemini h base64 (mimetype f) (originalname f) ;;
         ret (respond rawText)
     end)
    (fun message =>
       emit (Logged message) ;;;
       ret (MkResponse 500
              (JObject
                 [(js "error", JString (message_or message (js "Server error")))]))).

(** A host for examples: the network answers every request with status
    [status] and body [text]. *)
Definition host_replying (key : jsstring) (status : N) (text : jsstring) : Host :=
  MkHost key (fun _ => Replied status text) (fun n => n) (fun _ => js "<json>")
    (fun _ => js "<engine message>").

Definition a_file : File := MkFile (js "r.png") (js "image/png") [77; 97; 110; 33].

(** ** Notions of the specification

    What the specification's sentences speak of, written from its words
    and independently of the code: occurrences of a substring, and the
    interior of the first fenced code block. *)

(** [strip_prefix i pat s]: what follows [pat] at the head of [s], letters
    compared up to case when [i] is set. *)
Fixpoint strip_prefix (ignoreCase : bool) (pat s : jsstring)
    : option jsstring :=
  match pat, s with
  | [], _ => Some s
  | p :: pat', c :: s' =>
      if chr_eq ignoreCase p c then strip_prefix ignoreCase pat' s' else None
  | _ :: _, [] => None
  end.

(** The position of the first occurrence of [pat] in [s]. *)
Fixpoint find_sub (pat s : jsstring) : option nat :=
  if starts_with pat s then Some O
  else match s with
       | [] => None
       | _ :: s' => option_map S (find_sub pat s')
       end.

(** The position of the last occurrence of [pat] in [s]. *)
Fixpoint find_last (pat s : jsstring) : option nat :=
  match s with
  | [] => if starts_with pat [] then Some O else None
  | _ :: s' =>
      match find_last pat s' with
      | Some n => Some (S n)
      | None => if starts_with pat s then Some O else None
      end
  end.

(** [pat] occurs in [s] at position [i]. *)
Definition occurs_at (pat s : jsstring) (i : nat) : Prop :=
  starts_with pat (skipn i s) = true.

Definition first_occurrence (pat s : jsstring) (i : nat) : Prop :=
  occurs_at pat s i /\ forall j, (j < i)%nat -> ~ occurs_at pat s j.

Definition last_occurrence (pat s : jsstring) (i : nat) : Prop :=
  occurs_at pat s i /\ forall j, (i < j)%nat -> ~ occurs_at pat s j.

(** The characters of [s] from position [i] up to, not including, [j]. *)
Definition substring (s : jsstring) (i j : nat) : jsstring :=
  firstn (j - i) (skipn i s).

(** A fence may carry the tag [json], in either case of each letter. *)
Definition strip_tag (s : jsstring) : jsstring :=
  match strip_prefix true (js "json") s with
  | Some s' => s'
  | None => s
  end.

(** The interior of the first fenced code block of [text]: the block opens
    at the first run of three backquotes, an optional tag follows, and the
    block closes at the next run of three backquotes; the interior is what
    lies between.  [None] when [text] has no fenced code block. *)
Definition first_fence_interior (text : jsstring) : option jsstring :=
  match find_sub ticks text with
  | None => None
  | Some i =>
      let after := strip_tag (skipn (i + 3) text) in
      match find_sub ticks after with
      | None => None
      | Some j => Some (firstn j after)
      end
  end.

(** The text segments of an array of parts: the [text] of every part that
    has one and is a string. *)
Fixpoint text_segments (parts : list value) : list jsstring :=
  match parts with
  | [] => []
  | p :: rest =>
      match Get p (js "text") with
      | Some (JString s) => s :: text_segments rest
      | _ => text_segments rest
      end
  end.

(** ** Auxiliary notions for the proofs *)

(** The fence pattern after its opening backquotes and tag. *)
Definition fence_body : regex :=
  Seq (StarG is_space)
   (Seq (Grp (StarL any))
    (Seq (StarG is_space) (lit ticks))).

Definition body_match (s : jsstring) : option (jsstring * option jsstring) :=
  rx true fence_body s None (fun rest cap => Some (rest, cap)).

(** A closing fence follows at [e], after white space only. *)
Definition closes (e : jsstring) : bool := starts_with ticks (trimStart e).

(** The least number of characters to skip before a closing fence
    follows. *)
Fixpoint first_close (c : jsstring) : option nat :=
  if closes c then Some O
  else match c with
       | [] => None
       | _ :: c' => option_map S (first_close c')
       end.

(** The candidate of brace scanning: the text from the first opening
    brace through the last closing brace, when the first lies before the
    second. *)
Definition brace_candidate (text : jsstring) : option jsstring :=
  match find_sub lbrace text, find_last rbrace text with
  | Some f, Some l =>
      if (f <? l)%nat then Some (substring text f (S l)) else None
  | _, _ => None
  end.

(** What the handler gives to [JSON.parse]: the extracted candidate when
    there is one, the raw reply otherwise. *)
Definition parse_input (rawText : jsstring) : jsstring :=
  match extractJsonMaybe rawText with
  | Some candidate => candidate
  | None => rawText
  end.

(** The two shapes of a result document both carry a [document_type]
    among "receipt", "invoice" and "other". *)
Definition is_result_document (v : value) : bool :=
  match v with
  | JObject props =>
      match lookup (js "document_type") props with
      | Some (JString t) =>
          eqs t (js "receipt") || eqs t (js "invoice") || eqs t (js "other")
      | _ => false
      end
  | _ => false
  end.

(** The content parts of the first candidate of a response of the
    inference service: no parts when the response has no candidate, the
    candidate no content or the content no parts; [None] when the response
    does not have the shape of the service's replies. *)
Definition candidate_parts (data : value) : option (list value) :=
  match data with
  | JObject d =>
      match lookup (js "candidates") d with
      | None | Some JNull | Some (JArray []) => Some []
      | Some (JArray (JObject c :: _)) =>
          match lookup (js "content") c with
          | None | Some JNull => Some []
          | Some (JObject ct) =>
              match lookup (js "parts") ct with
              | None | Some JNull => Some []
              | Some (JArray parts) => Some parts
              | Some _ => None
              end
          | Some _ => None
          end
      | Some _ => None
      end
  | _ => None
  end.

(** A part is an object whose [text], when it has one, is a string. *)
Definition part_ok (p : value) : Prop :=
  match p with
  | JObject props =>
      match lookup (js "text") props with
      | None | Some (JString _) => True
      | Some _ => False
      end
  | _ => False
  end.

(** The segment a part contributes: its text, or nothing. *)
Definition part_segment (p : value) : jsstring :=
  match Get p (js "text") with
  | Some (JString s) => s
  | _ => []
  end.

(** The envelope of a successful analysis. *)
Definition success (data : value) : Response :=
  MkResponse 200 (JObject [(js "ok", JBool true); (js "data", data)]).

(** The request [callGemini] sends. *)
Definition outbound (h : Host) (base64 mime filename : jsstring) : Outbound :=
  MkOutbound (endpoint ++ GOOGLE_API_KEY h) (js "POST") (js "application/json")
    (JSON_stringify h (request_body base64 mime filename)).

(** ** Inputs for the examples *)

Definition a_request : Request := MkRequest (Some a_file).

(** A host whose network wraps [text] as the only part of a reply. *)
Definition host_saying (text : jsstring) : Host :=
  host_replying (js "k") 200
    (jsq "{'candidates':[{'content':{'parts':[{'text':'" ++ text ++ jsq "'}]}}]}").

(** A reply whose second part carries no text. *)
Definition gap_body : jsstring :=
  jsq "{'candidates':[{'content':{'parts':[{'text':'a'},{'inlineData':{}},{'text':'b'}]}}]}".

Definition gap_parts : list value :=
  [JObject [(js "text", JString (js "a"))];
   JObject [(js "inlineData", JObject [])];
   JObject [(js "text", JString (js "b"))]].

Definition gap_data : value :=
  JObject
    [(js "candidates",
      JArray [JObject [(js "content", JObject [(js "parts", JArray gap_parts)])]])].

Definition prose : jsstring := js "Sorry, nothing to read here.".

Definition doc_reply : jsstring :=
  jsq "{'document_type':'other','title':'T','summary':'S','notes':'N'}".

(** A host whose network sends [doc_reply] as the text of the only part. *)
Definition doc_host : Host :=
  host_replying (js "k") 200
    (jsq "{'candidates':[{'content':{'parts':[{'text':'{\'document_type\':\'other\',\'title\':\'T\',\'summary\':\'S\',\'notes\':\'N\'}'}]}}]}").

Definition braces_example : jsstring := jsq "Here is data: {'a':1} thanks".

Definition fenced_example : jsstring := jsq "{x} ```json
{'a':1}
``` {y}".

Definition blank_fence_example : jsstring := js "``` ``` {}".

(** ** Notions for the further properties *)

(** Line 14: [process.env.GOOGLE_API_KEY || ""], the variable being
    undefined ([None]) when it is not set. *)
Definition key_of_env (variable : option jsstring) : jsstring :=
  or_else variable [].

(** The requests among some effects, and the messages written to the
    error log. *)
Fixpoint fetched (l : list effect) : list Outbound :=
  match l with
  | [] => []
  | Fetched rq :: rest => rq :: fetched rest
  | Logged _ :: rest => fetched rest
  end.

Fixpoint logged (l : list effect) : list jsstring :=
  match l with
  | [] => []
  | Fetched _ :: rest => logged rest
  | Logged m :: rest => m :: logged rest
  end.

(** [c] is a run of consecutive characters of [text]. *)
Definition infix_of (c text : jsstring) : Prop :=
  exists pre post, text = pre ++ c ++ post.

(** The prefix of every error the client raises past its key check. *)
Definition fetch_failed : jsstring := js "Gemini fetch failed: ".

(** A part that carries a string as its text. *)
Definition has_text (p : value) : Prop :=
  exists props s, p = JObject props /\ lookup (js "text") props = Some (JString s).

(** What the client does once the key is there, by the reply of the
    network. *)
Definition client_outcome (h : Host) (reply : FetchResult) : outcome jsstring :=
  match reply with
  | Rejected message => Thrown (fetch_failed ++ message)
  | Replied status t =>
      if res_ok status then
        match JSON_parse t with
        | None => Thrown (fetch_failed ++ fault_message h (BadJson t))
        | Some data =>
            match fst (reply_text h data []) with
            | Returned joined => Returned (or_else joined (JSON_stringify h data))
            | Thrown message => Thrown (fetch_failed ++ message)
            end
        end
      else
        Thrown (fetch_failed ++ js "Gemini HTTP " ++ decimal status ++ js ": " ++ t)
  end.

(** [data?.candidates?.[0]?.content?.parts]: the value the client maps
    over, undefined ([None]) when a link of the chain is missing. *)
Definition reply_parts (data : value) : option value :=
  chain
    (chain
       (chain (chain (Some data) (fun v => Get v (js "candidates"))) Get_0)
       (fun v => Get v (js "content")))
    (fun v => Get v (js "parts")).

(** Hosts for the instances of the further properties. *)
Definition rejecting_host : Host :=
  MkHost (js "k") (fun _ => Rejected (js "This operation was aborted"))
    (fun n => n) (fun _ => js "<json>") (fun _ => js "<engine message>").

Definition string_parts_body : jsstring :=
  jsq "{'candidates':[{'content':{'parts':'oops'}}]}".

Definition null_part_body : jsstring :=
  jsq "{'candidates':[{'content':{'parts':[{'text':'a'},null]}}]}".

Definition two_parts_body : jsstring :=
  jsq "{'candidates':[{'content':{'parts':[{'text':'{'},{'text':'}'}]}}]}".

Definition two_parts : list value :=
  [JObject [(js "text", JString (js "{"))];
   JObject [(js "text", JString (js "}"))]].

Definition two_parts_data : value :=
  JObject
    [(js "candidates",
      JArray [JObject [(js "content", JObject [(js "parts", JArray two_parts)])]])].

Definition a_base64 : jsstring := toString_base64 (buffer a_file).

Definition keyless_host : Host := host_replying [] 200 prose.

Definition busy_host : Host := host_replying (js "k") 503 (js "busy").

Definition html_host : Host := host_replying (js "k") 200 (js "<html>").

Definition string_parts_host : Host := host_replying (js "k") 200 string_parts_body.

Definition two_parts_host : Host := host_replying (js "k") 200 two_parts_body.

Definition a_outbound (h : Host) : Outbound :=
  outbound h (toString_base64 (buffer a_file)) (mimetype a_file)
    (originalname a_file).

Definition fenced_match : match_result :=
  MatchResult 4 (jsq "```json
{'a':1}
```") (Some (jsq "{'a':1}")).

Definition padded_object : jsstring := jsq "
  {'a': [1, 2]}  ".

Definition string_parts_data : value :=
  JObject
    [(js "candidates",
      JArray
        [JObject [(js "content", JObject [(js "parts", JString (js "oops"))])]])].

(** A text whose second fenced block is blank, behind a first one that is
    not. *)
Definition later_blank_example : jsstring := js "```a``` ``` ``` {x}".

(** A host whose network answers with the body [null]. *)
Definition null_host : Host := host_replying (js "k") 200 (js "null").

Definition gap_host : Host := host_replying (js "k") 200 gap_body.

(** * Properties *)

(** ** Lists and strings *)

Lemma firstn_length_app (A : Type) (pre c : list A) :
  firstn (List.length (pre ++ c) - List.length c) (pre ++ c) = pre.
Proof.
  rewrite length_app.
  replace (List.length pre + List.length c - List.length c)%nat
    with (List.length pre + 0)%nat by lia.
  rewrite firstn_app_2. cbn. apply app_nil_r.
Qed.

Lemma starts_with_cons p pat c s :
  starts_with (p :: pat) (c :: s) = (p =? c) && starts_with pat s.
Proof. reflexivity. Qed.

Lemma ticks_eq : ticks = [96; 96; 96].
Proof. reflexivity. Qed.

Lemma starts_with_ticks_head c s :
  starts_with ticks (c :: s) = true -> c = 96.
Proof.
  rewrite ticks_eq, starts_with_cons. intros H.
  apply andb_prop in H. destruct H as [H _].
  apply N.eqb_eq in H. congruence.
Qed.

Lemma starts_with_ticks_space c s :
  is_space c = true -> starts_with ticks (c :: s) = false.
Proof.
  intros Hc. destruct (starts_with ticks (c :: s)) eqn:E; [|reflexivity].
  apply starts_with_ticks_head in E. subst. discriminate.
Qed.

Lemma trimStart_nonspace c s :
  is_space c = false -> trimStart (c :: s) = c :: s.
Proof. intros H. cbn. now rewrite H. Qed.

Lemma trimStart_ticks s :
  starts_with ticks s = true -> trimStart s = s.
Proof.
  destruct s as [|c s]; [reflexivity|]. intros H.
  apply starts_with_ticks_head in H. subst. reflexivity.
Qed.

Lemma trimEnd_snoc_nonspace s c :
  is_space c = false -> trimEnd (s ++ [c]) = s ++ [c].
Proof.
  intros Hc. induction s as [|x s IH]; cbn.
  - now rewrite Hc.
  - rewrite IH. destruct (s ++ [c]) eqn:E; [|reflexivity].
    destruct s; discriminate.
Qed.

Lemma find_sub_cons_not pat c s :
  starts_with pat (c :: s) = false ->
  find_sub pat (c :: s) = option_map S (find_sub pat s).
Proof. intros H. cbn [find_sub]. now rewrite H. Qed.

Lemma find_sub_here pat s :
  starts_with pat s = true -> find_sub pat s = Some O.
Proof. intros H. destruct s; cbn [find_sub]; now rewrite H. Qed.

Lemma find_sub_skipn pat s n :
  find_sub pat s = None -> find_sub pat (skipn n s) = None.
Proof.
  revert s. induction n as [|n IH]; intros s H; [exact H|].
  destruct s as [|c s]; [exact H|]. cbn [skipn]. apply IH.
  cbn [find_sub] in H. destruct (starts_with pat (c :: s)); [discriminate|].
  destruct (find_sub pat s); [discriminate|reflexivity].
Qed.

(** ** The matcher on the fence pattern *)

Ltac nbool :=
  repeat match goal with
  | |- context [N.eqb ?a ?b] => destruct (N.eqb_spec a b)
  | |- context [N.leb ?a ?b] => destruct (N.leb_spec a b)
  | |- context [N.ltb ?a ?b] => destruct (N.ltb_spec a b)
  end; cbn [andb orb negb]; try reflexivity; try lia.

Lemma chr_eq_tick c : chr_eq true 96 c = (96 =? c).
Proof.
  unfold chr_eq, canonicalize.
  change ((97 <=? 96) && (96 <=? 122)) with false. cbv iota.
  destruct ((97 <=? c) && (c <=? 122)) eqn:E.
  - apply andb_prop in E. destruct E as [E1 E2].
    apply N.leb_le in E1. apply N.leb_le in E2. nbool.
  - reflexivity.
Qed.

Lemma strip_prefix_ticks s :
  strip_prefix true ticks s
  = if starts_with ticks s then Some (skipn 3 s) else None.
Proof.
  rewrite ticks_eq.
  destruct s as [|a [|b [|c s]]]; cbn [strip_prefix starts_with skipn];
    rewrite ?chr_eq_tick;
    repeat match goal with
    | |- context [96 =? ?x] => destruct (96 =? x)
    end; reflexivity.
Qed.

Section MatcherFacts.
Context {R : Type}.

Lemma star_greedy_ext p s (k k' : jsstring -> option R) :
  (forall x, k x = k' x) -> star_greedy p s k = star_greedy p s k'.
Proof.
  intros H. induction s as [|c s IH]; cbn; [apply H|].
  rewrite IH, H. reflexivity.
Qed.

Lemma star_lazy_ext p s (k k' : jsstring -> option R) :
  (forall x, k x = k' x) -> star_lazy p s k = star_lazy p s k'.
Proof.
  intros H. induction s as [|c s IH]; cbn; rewrite H; [reflexivity|].
  now rewrite IH.
Qed.

Lemma rx_lit i l s cap (k : jsstring -> option jsstring -> option R) :
  rx i (lit l) s cap k
  = match strip_prefix i l s with
    | Some s' => k s' cap
    | None => None
    end.
Proof.
  revert s. induction l as [|p l IH]; intros s; [reflexivity|].
  cbn [lit fold_right rx strip_prefix].
  destruct s as [|c s]; [reflexivity|].
  destruct (chr_eq i p c); [apply IH|reflexivity].
Qed.

(** [\s*] followed by the closing fence: the white space is skipped and
    the fence must follow at once. *)
Lemma greedy_space_then_ticks e cap
    (k : jsstring -> option jsstring -> option R) :
  star_greedy is_space e (fun t => rx true (lit ticks) t cap k)
  = if starts_with ticks (trimStart e)
    then k (skipn 3 (trimStart e)) cap else None.
Proof.
  induction e as [|c e IH].
  - cbn [star_greedy trimStart]. rewrite rx_lit, strip_prefix_ticks.
    reflexivity.
  - cbn [star_greedy trimStart]. destruct (is_space c) eqn:Hc.
    + rewrite IH, (rx_lit true ticks (c :: e)), strip_prefix_ticks.
      rewrite (starts_with_ticks_space c e Hc).
      destruct (starts_with ticks (trimStart e)); [|reflexivity].
      destruct (k (skipn 3 (trimStart e)) cap); reflexivity.
    + rewrite rx_lit, strip_prefix_ticks.
      destruct (starts_with ticks (c :: e)); reflexivity.
Qed.

(** A greedy run of white space in front of a continuation that fails
    on [c :: s] whenever [c] is white space and it fails on [s]: only
    the longest run matters. *)
Lemma star_greedy_space (F : jsstring -> option R) x :
  (forall c s, is_space c = true -> F s = None -> F (c :: s) = None) ->
  star_greedy is_space x F = F (trimStart x).
Proof.
  intros HF.
  assert (Hback : forall y, F (trimStart y) = None -> F y = None).
  { induction y as [|c y IHy]; cbn [trimStart]; [auto|].
    destruct (is_space c) eqn:Hc; [|auto].
    intros H. apply HF; auto. }
  induction x as [|c x IH]; cbn [star_greedy trimStart]; [reflexivity|].
  destruct (is_space c) eqn:Hc; [|reflexivity].
  rewrite IH. destruct (F (trimStart x)) eqn:E; [reflexivity|].
  apply HF; auto.
Qed.
End MatcherFacts.

(** ** The capture of the fence pattern *)

Lemma closes_space c s : is_space c = true -> closes (c :: s) = closes s.
Proof. intros H. unfold closes. cbn [trimStart]. now rewrite H. Qed.

Lemma closes_here s : starts_with ticks s = true -> closes s = true.
Proof. intros H. unfold closes. now rewrite trimStart_ticks. Qed.

Lemma closes_find c :
  closes c = true ->
  exists q, find_sub ticks c = Some q /\ trimEnd (firstn q c) = [].
Proof.
  induction c as [|x c IH]; intros H; [discriminate|].
  destruct (is_space x) eqn:Hx.
  - rewrite closes_space in H by assumption.
    destruct (IH H) as (q & Hq & Ht). exists (S q). split.
    + rewrite find_sub_cons_not, Hq by now apply starts_with_ticks_space.
      reflexivity.
    + cbn [firstn trimEnd]. now rewrite Ht, Hx.
  - exists O. split; [|reflexivity]. apply find_sub_here.
    unfold closes in H. now rewrite trimStart_nonspace in H.
Qed.

Lemma find_closes c q :
  find_sub ticks c = Some q -> trimEnd (firstn q c) = [] -> closes c = true.
Proof.
  revert q. induction c as [|x c IH]; intros q Hq Ht; [discriminate|].
  destruct (starts_with ticks (x :: c)) eqn:E; [now apply closes_here|].
  rewrite find_sub_cons_not in Hq by assumption.
  destruct (find_sub ticks c) as [q'|] eqn:Hq'; [|discriminate].
  injection Hq as <-. cbn [firstn trimEnd] in Ht.
  destruct (trimEnd (firstn q' c)) eqn:Ht'; [|discriminate].
  destruct (is_space x) eqn:Hx; [|discriminate].
  rewrite closes_space by assumption. now apply (IH q').
Qed.

Lemma first_close_find c :
  first_close c
  = option_map (fun q => List.length (trimEnd (firstn q c))) (find_sub ticks c).
Proof.
  induction c as [|x c IH]; [reflexivity|].
  cbn [first_close]. destruct (closes (x :: c)) eqn:Hc.
  - destruct (closes_find _ Hc) as (q & Hq & Ht). now rewrite Hq; cbn; rewrite Ht.
  - assert (E : starts_with ticks (x :: c) = false).
    { destruct (starts_with ticks (x :: c)) eqn:E; [|reflexivity].
      apply closes_here in E. congruence. }
    rewrite find_sub_cons_not, IH by assumption.
    destruct (find_sub ticks c) as [q|] eqn:Hq; [|reflexivity].
    cbn [option_map firstn trimEnd]. f_equal.
    destruct (trimEnd (firstn q c)) eqn:Ht; [|reflexivity].
    destruct (is_space x) eqn:Hx; [|reflexivity].
    rewrite closes_space in Hc by assumption.
    rewrite (find_closes c q Hq Ht) in Hc. discriminate.
Qed.

Lemma trimEnd_firstn y : firstn (List.length (trimEnd y)) y = trimEnd y.
Proof.
  induction y as [|x y IH]; [reflexivity|]. cbn [trimEnd].
  destruct (trimEnd y) as [|t ts] eqn:E.
  - destruct (is_space x); reflexivity.
  - cbn [List.length firstn] in IH |- *. now rewrite IH.
Qed.

Lemma length_trimEnd y : (List.length (trimEnd y) <= List.length y)%nat.
Proof.
  rewrite <- (trimEnd_firstn y) at 1. rewrite length_firstn. lia.
Qed.

Lemma trimEnd_firstn_outer q c :
  firstn (List.length (trimEnd (firstn q c))) c = trimEnd (firstn q c).
Proof.
  rewrite <- (trimEnd_firstn (firstn q c)) at 2.
  rewrite firstn_firstn. f_equal.
  pose proof (length_trimEnd (firstn q c)) as H.
  rewrite length_firstn in H. lia.
Qed.

(** The lazy star in front of the closing fence stops at the first place
    where the fence follows. *)
Lemma lazy_close c0 c pre :
  c0 = pre ++ c ->
  option_map snd
    (star_lazy any c
       (fun e =>
          if closes e
          then Some (skipn 3 (trimStart e),
                     Some (firstn (List.length c0 - List.length e) c0))
          else None))
  = option_map (fun n => Some (pre ++ firstn n c)) (first_close c).
Proof.
  revert pre. induction c as [|x c IH]; intros pre ->.
  - cbn [star_lazy first_close]. destruct (closes []); [|reflexivity].
    cbn [option_map snd firstn]. now rewrite firstn_length_app, app_nil_r.
  - cbn [star_lazy first_close]. destruct (closes (x :: c)).
    + cbn [option_map snd firstn]. now rewrite firstn_length_app, app_nil_r.
    + cbn [any]. rewrite (IH (pre ++ [x])) by now rewrite <- app_assoc.
      destruct (first_close c); [|reflexivity].
      cbn [option_map firstn]. now rewrite <- app_assoc.
Qed.

Lemma option_map_snd_none (A B : Type) (o : option (A * B)) :
  option_map snd o = None -> o = None.
Proof. destruct o; [discriminate|reflexivity]. Qed.

Lemma lazy_capture c :
  option_map snd
    (star_lazy any c
       (fun e =>
          star_greedy is_space e
            (fun t =>
               rx true (lit ticks) t
                 (Some (firstn (List.length c - List.length e) c))
                 (fun rest cap => Some (rest, cap)))))
  = option_map (fun q => Some (trimEnd (firstn q c))) (find_sub ticks c).
Proof.
  rewrite (star_lazy_ext any c _
             (fun e =>
                if closes e
                then Some (skipn 3 (trimStart e),
                           Some (firstn (List.length c - List.length e) c))
                else None))
    by (intros e; apply greedy_space_then_ticks).
  etransitivity; [apply (lazy_close c c []); reflexivity|].
  rewrite first_close_find.
  destruct (find_sub ticks c); [|reflexivity].
  cbn [option_map app]. now rewrite trimEnd_firstn_outer.
Qed.

Lemma trim_cons_space c z : is_space c = true -> trim (c :: z) = trim z.
Proof. intros H. unfold trim. cbn [trimStart]. now rewrite H. Qed.

Lemma find_sub_trimStart y :
  option_map (fun q => trimEnd (firstn q (trimStart y)))
    (find_sub ticks (trimStart y))
  = option_map (fun j => trim (firstn j y)) (find_sub ticks y).
Proof.
  induction y as [|c y IH]; [reflexivity|].
  destruct (is_space c) eqn:Hc.
  - cbn [trimStart]. rewrite Hc, IH.
    rewrite find_sub_cons_not by now apply starts_with_ticks_space.
    destruct (find_sub ticks y); [|reflexivity].
    cbn [option_map firstn]. now rewrite trim_cons_space.
  - rewrite trimStart_nonspace by assumption.
    destruct (find_sub ticks (c :: y)) as [[|j]|]; [reflexivity| |reflexivity].
    cbn [option_map firstn]. unfold trim.
    now rewrite trimStart_nonspace.
Qed.

(** The capture of the pattern after the opening fence and tag: the
    trimmed text up to the next run of three backquotes. *)
Lemma body_match_capture x :
  option_map snd (body_match x)
  = option_map (fun j => Some (trim (firstn j x))) (find_sub ticks x).
Proof.
  unfold body_match, fence_body. cbn [rx].
  rewrite star_greedy_space.
  - rewrite lazy_capture.
    pose proof (find_sub_trimStart x) as H.
    destruct (find_sub ticks (trimStart x)), (find_sub ticks x);
      cbn [option_map] in *; congruence.
  - intros c s Hc H.
    apply option_map_snd_none. rewrite lazy_capture.
    apply (f_equal (option_map snd)) in H. rewrite lazy_capture in H.
    rewrite find_sub_cons_not by now apply starts_with_ticks_space.
    destruct (find_sub ticks s); [discriminate|reflexivity].
Qed.

Lemma strip_prefix_skipn i pat a b :
  strip_prefix i pat a = Some b -> b = skipn (List.length pat) a.
Proof.
  revert a. induction pat as [|p pat IH]; intros a H.
  - cbn in H. now injection H as <-.
  - destruct a as [|c a]; [discriminate|]. cbn [strip_prefix] in H.
    destruct (chr_eq i p c); [|discriminate]. now apply IH.
Qed.

Lemma canonicalize_tick c : canonicalize c = 96 -> c = 96.
Proof.
  unfold canonicalize. destruct ((97 <=? c) && (c <=? 122)) eqn:E; [|auto].
  apply andb_prop in E. destruct E as [E1 E2].
  apply N.leb_le in E1. apply N.leb_le in E2. lia.
Qed.

Lemma strip_prefix_find pat a b :
  strip_prefix true pat a = Some b ->
  (forall p, In p pat -> canonicalize p <> 96) ->
  find_sub ticks b = None -> find_sub ticks a = None.
Proof.
  revert a. induction pat as [|p pat IH]; intros a H Hp Hb.
  - cbn in H. now injection H as ->.
  - destruct a as [|c a]; [discriminate|]. cbn [strip_prefix] in H.
    destruct (chr_eq true p c) eqn:Hc; [|discriminate].
    assert (E : starts_with ticks (c :: a) = false).
    { destruct (starts_with ticks (c :: a)) eqn:E; [|reflexivity].
      apply starts_with_ticks_head in E. subst c.
      unfold chr_eq in Hc. apply N.eqb_eq in Hc.
      exfalso. apply (Hp p); [now left|]. exact Hc. }
    rewrite find_sub_cons_not by assumption.
    rewrite (IH a H); [reflexivity| |assumption].
    intros q Hq. apply Hp. now right.
Qed.

Lemma find_sub_strip_tag x :
  find_sub ticks (strip_tag x) = None <-> find_sub ticks x = None.
Proof.
  unfold strip_tag.
  destruct (strip_prefix true (js "json") x) as [b|] eqn:E; [|tauto].
  split; intros H.
  - apply (strip_prefix_find _ _ _ E); [|assumption].
    intros p Hp. cbn in Hp.
    destruct Hp as [<-|[<-|[<-|[<-|[]]]]]; discriminate.
  - rewrite (strip_prefix_skipn _ _ _ _ E). now apply find_sub_skipn.
Qed.

(** A match attempt at one position: the text must open with three
    backquotes, and a later run of three must close the block. *)
Lemma exec_at_fence s :
  option_map snd (exec_at true fence_re s)
  = if starts_with ticks s
    then option_map (fun j => Some (trim (firstn j (strip_tag (skipn 3 s)))))
           (find_sub ticks (strip_tag (skipn 3 s)))
    else None.
Proof.
  change (exec_at true fence_re s)
    with (rx true (lit ticks) s None
            (fun s1 c1 =>
               match
                 rx true (lit (js "json")) s1 c1
                   (fun s2 c2 =>
                      rx true fence_body s2 c2 (fun rest cap => Some (rest, cap)))
               with
               | Some v => Some v
               | None => rx true fence_body s1 c1 (fun rest cap => Some (rest, cap))
               end)).
  rewrite rx_lit, strip_prefix_ticks.
  destruct (starts_with ticks s); [|reflexivity].
  rewrite rx_lit. fold (body_match (skipn 3 s)).
  pose proof (find_sub_strip_tag (skipn 3 s)) as Htag.
  unfold strip_tag in *.
  destruct (strip_prefix true (js "json") (skipn 3 s)) as [b|] eqn:E.
  - fold (body_match b). destruct (body_match b) as [v|] eqn:B.
    + rewrite <- body_match_capture, B. reflexivity.
    + pose proof (body_match_capture b) as Hb. rewrite B in Hb.
      destruct (find_sub ticks b); [discriminate|].
      pose proof (body_match_capture (skipn 3 s)) as Hs.
      rewrite (proj1 Htag eq_refl) in Hs. exact Hs.
  - apply body_match_capture.
Qed.

Lemma first_fence_interior_cons c s :
  starts_with ticks (c :: s) = false ->
  first_fence_interior (c :: s) = first_fence_interior s.
Proof.
  intros H. unfold first_fence_interior. rewrite find_sub_cons_not by assumption.
  destruct (find_sub ticks s); reflexivity.
Qed.

Lemma first_fence_interior_here s :
  starts_with ticks s = true ->
  first_fence_interior s
  = option_map (fun j => firstn j (strip_tag (skipn 3 s)))
      (find_sub ticks (strip_tag (skipn 3 s))).
Proof.
  intros H. unfold first_fence_interior. rewrite find_sub_here by assumption.
  cbn [Nat.add]. destruct (find_sub ticks (strip_tag (skipn 3 s))); reflexivity.
Qed.

Lemma exec_at_none s :
  find_sub ticks (skipn 3 s) = None -> exec_at true fence_re s = None.
Proof.
  intros H. apply option_map_snd_none. rewrite exec_at_fence.
  destruct (starts_with ticks s); [|reflexivity].
  now rewrite (proj2 (find_sub_strip_tag _) H).
Qed.

(** When no run of three backquotes lies three or more characters on, no
    later start position matches either. *)
Lemma match_from_none s i :
  find_sub ticks (skipn 3 s) = None -> match_from true fence_re s i = None.
Proof.
  revert i. induction s as [|c s IH]; intros i H.
  - cbn [match_from]. now rewrite exec_at_none.
  - cbn [match_from]. rewrite exec_at_none by assumption.
    apply IH. change (skipn 3 (c :: s)) with (skipn 2 s) in H.
    replace (skipn 3 s) with (skipn 1 (skipn 2 s)) by apply skipn_skipn.
    now apply find_sub_skipn.
Qed.

(** The capture of [text.match(fence)] is the trimmed interior of the
    first fenced code block, and the match is null when there is none. *)
Lemma match_from_capture s i :
  option_map m_1 (match_from true fence_re s i)
  = option_map (fun b => Some (trim b)) (first_fence_interior s).
Proof.
  revert i. induction s as [|c s IH]; intros i.
  - reflexivity.
  - cbn [match_from].
    pose proof (exec_at_fence (c :: s)) as He.
    destruct (starts_with ticks (c :: s)) eqn:Ht.
    + rewrite first_fence_interior_here by assumption.
      destruct (exec_at true fence_re (c :: s)) as [[rest cap]|].
      * cbn [option_map snd m_1] in *.
        destruct (find_sub ticks (strip_tag (skipn 3 (c :: s))));
          cbn [option_map] in *; congruence.
      * destruct (find_sub ticks (strip_tag (skipn 3 (c :: s)))) eqn:E;
          [discriminate|].
        apply (proj1 (find_sub_strip_tag _)) in E.
        change (skipn 3 (c :: s)) with (skipn 2 s) in E.
        rewrite match_from_none; [reflexivity|].
        replace (skipn 3 s) with (skipn 1 (skipn 2 s)) by apply skipn_skipn.
        now apply find_sub_skipn.
    + destruct (exec_at true fence_re (c :: s)); [discriminate|].
      rewrite IH. now rewrite first_fence_interior_cons.
Qed.

Lemma trimEnd_idem y : trimEnd (trimEnd y) = trimEnd y.
Proof.
  induction y as [|x y IH]; [reflexivity|]. cbn [trimEnd].
  destruct (trimEnd y) as [|t ts] eqn:E.
  - destruct (is_space x) eqn:Hx; [reflexivity|]. cbn. now rewrite Hx.
  - cbn [trimEnd] in IH |- *. now rewrite IH.
Qed.

Lemma trimStart_head z :
  match trimStart z with
  | [] => True
  | x :: _ => is_space x = false
  end.
Proof.
  induction z as [|c z IH]; cbn [trimStart]; [exact I|].
  destruct (is_space c) eqn:Hc; assumption.
Qed.

Lemma trimStart_trimEnd z :
  trimStart z = z -> trimStart (trimEnd z) = trimEnd z.
Proof.
  destruct z as [|x z]; [reflexivity|]. intros H.
  pose proof (trimStart_head (x :: z)) as Hx. rewrite H in Hx.
  cbn [trimEnd]. destruct (trimEnd z); [rewrite Hx|];
    now apply trimStart_nonspace.
Qed.

Lemma trimStart_idem z : trimStart (trimStart z) = trimStart z.
Proof.
  induction z as [|c z IH]; [reflexivity|]. cbn [trimStart].
  destruct (is_space c) eqn:Hc; [assumption|]. now apply trimStart_nonspace.
Qed.

Lemma trim_idem b : trim (trim b) = trim b.
Proof.
  unfold trim. rewrite trimStart_trimEnd by apply trimStart_idem.
  apply trimEnd_idem.
Qed.

(** [fence && fence[1]] is the trimmed interior of the first fenced block
    when that is not empty. *)
Lemma fence_and_1_interior text :
  fence_and_1 (String_match text true fence_re)
  = match first_fence_interior text with
    | Some b => if truthy (trim b) then Some (trim b) else None
    | None => None
    end.
Proof.
  unfold String_match, fence_and_1.
  pose proof (match_from_capture text 0) as H.
  destruct (match_from true fence_re text 0) as [m|],
    (first_fence_interior text) as [b|]; cbn [option_map] in H;
    try discriminate; [|reflexivity].
  injection H as ->. reflexivity.
Qed.

(** ** Occurrences, [indexOf], [lastIndexOf] and [slice] *)

Lemma indexOf_from_find pat s i :
  indexOf_from pat s i
  = match find_sub pat s with
    | Some n => (i + Z.of_nat n)%Z
    | None => (-1)%Z
    end.
Proof.
  revert i. induction s as [|c s IH]; intros i; cbn [indexOf_from find_sub].
  - destruct (starts_with pat []); [f_equal; cbn; lia|reflexivity].
  - destruct (starts_with pat (c :: s)); [cbn; lia|].
    rewrite IH. destruct (find_sub pat s); cbn [option_map]; lia.
Qed.

Lemma lastIndexOf_from_find pat s i best :
  lastIndexOf_from pat s i best
  = match find_last pat s with
    | Some n => (i + Z.of_nat n)%Z
    | None => best
    end.
Proof.
  revert i best.
  induction s as [|c s IH]; intros i best; cbn [lastIndexOf_from find_last].
  - destruct (starts_with pat []); [cbn; lia|reflexivity].
  - rewrite IH. destruct (find_last pat s); [lia|].
    destruct (starts_with pat (c :: s)); [cbn; lia|reflexivity].
Qed.

Lemma occurs_at_lt p pat s i :
  occurs_at (p :: pat) s i -> (i < List.length s)%nat.
Proof.
  unfold occurs_at. revert s. induction i as [|i IH]; intros s H.
  - destruct s; [discriminate|cbn; lia].
  - destruct s as [|c s]; [discriminate|]. cbn [skipn] in H.
    apply IH in H. cbn. lia.
Qed.

Lemma find_sub_first pat s i :
  find_sub pat s = Some i <-> first_occurrence pat s i.
Proof.
  unfold first_occurrence, occurs_at. revert i.
  induction s as [|c s IH]; intros i; cbn [find_sub].
  - destruct (starts_with pat []) eqn:E; split.
    + intros [= <-]. split; [exact E|]. intros j Hj. lia.
    + intros [_ Hmin]. destruct i as [|i]; [reflexivity|].
      exfalso. apply (Hmin O); [lia|exact E].
    + discriminate.
    + intros [H _]. rewrite skipn_nil in H. congruence.
  - destruct (starts_with pat (c :: s)) eqn:E; split.
    + intros [= <-]. split; [exact E|]. intros j Hj. lia.
    + intros [_ Hmin]. destruct i as [|i]; [reflexivity|].
      exfalso. apply (Hmin O); [lia|exact E].
    + destruct (find_sub pat s) as [n|] eqn:Hn; [|discriminate].
      intros [= <-]. destruct (proj1 (IH n) eq_refl) as [Ho Hmin].
      split; [exact Ho|]. intros [|j] Hj; cbn [skipn]; [congruence|].
      apply Hmin. lia.
    + intros [Ho Hmin]. destruct i as [|i]; [cbn in Ho; congruence|].
      cbn [skipn] in Ho.
      rewrite (proj2 (IH i)); [reflexivity|]. split; [exact Ho|].
      intros j Hj. apply (Hmin (S j)). lia.
Qed.

Lemma find_last_last p pat s i :
  find_last (p :: pat) s = Some i <-> last_occurrence (p :: pat) s i.
Proof.
  unfold last_occurrence, occurs_at. revert i.
  induction s as [|c s IH]; intros i.
  - cbn. split; [discriminate|]. intros [H _]. rewrite skipn_nil in H.
    discriminate.
  - cbn [find_last]. split.
    + destruct (find_last (p :: pat) s) as [n|] eqn:Hn.
      * intros [= <-]. destruct (proj1 (IH n) eq_refl) as [Ho Hmax].
        split; [exact Ho|]. intros [|j] Hj; [lia|]. apply Hmax. lia.
      * destruct (starts_with (p :: pat) (c :: s)) eqn:E; [|discriminate].
        intros [= <-]. split; [exact E|]. intros [|j] Hj; [lia|].
        cbn [skipn]. intros Ho.
        assert (Hf : exists n, find_last (p :: pat) s = Some n).
        { clear - Ho. revert j Ho. induction s as [|x s IHs]; intros j Ho.
          - rewrite skipn_nil in Ho. discriminate.
          - cbn [find_last]. destruct j as [|j].
            + cbn [skipn] in Ho. rewrite Ho.
              destruct (find_last (p :: pat) s); eauto.
            + cbn [skipn] in Ho. destruct (IHs j Ho) as [n ->]. eauto. }
        destruct Hf as [n Hf]. congruence.
    + intros [Ho Hmax]. destruct i as [|i].
      * destruct (find_last (p :: pat) s) as [n|] eqn:Hn.
        -- exfalso. apply (Hmax (S n)); [lia|].
           cbn [skipn]. apply (proj1 (IH n) eq_refl).
        -- cbn [skipn] in Ho. now rewrite Ho.
      * cbn [skipn] in Ho. rewrite (proj2 (IH i)); [reflexivity|].
        split; [exact Ho|]. intros j Hj. apply (Hmax (S j)). lia.
Qed.

Lemma find_last_rbrace s i :
  find_last rbrace s = Some i <-> last_occurrence rbrace s i.
Proof. exact (find_last_last 125 [] s i). Qed.

Lemma firstn_succ_snoc (A : Type) k (z : list A) x rest :
  skipn k z = x :: rest -> firstn (S k) z = firstn k z ++ [x].
Proof.
  revert z. induction k as [|k IH]; intros z H.
  - cbn in H. subst z. reflexivity.
  - destruct z as [|y z]; [discriminate|]. cbn [skipn] in H.
    cbn [firstn app] in IH |- *. f_equal. now apply IH.
Qed.

Lemma starts_with_single c s :
  starts_with [c] s = true -> exists rest, s = c :: rest.
Proof.
  destruct s as [|x s]; [discriminate|]. cbn [starts_with].
  rewrite andb_true_r. intros H. apply N.eqb_eq in H. subst. eauto.
Qed.

(** A slice that opens with a brace and ends with one is left as it is
    by [trim]. *)
Lemma trim_braces text f l :
  occurs_at lbrace text f -> occurs_at rbrace text l -> (f < l)%nat ->
  trim (substring text f (S l)) = substring text f (S l).
Proof.
  unfold occurs_at, substring. intros Hf Hl Hlt.
  apply starts_with_single in Hf. destruct Hf as [r1 Hf].
  apply starts_with_single in Hl. destruct Hl as [r2 Hl].
  replace (S l - f)%nat with (S (l - f)) by lia.
  rewrite (firstn_succ_snoc _ (l - f) (skipn f text) 125 r2).
  2:{ rewrite skipn_skipn. replace (l - f + f)%nat with l by lia. exact Hl. }
  rewrite Hf. replace (l - f)%nat with (S (l - f - 1)) by lia.
  cbn [firstn app]. unfold trim.
  rewrite trimStart_nonspace by reflexivity.
  rewrite app_comm_cons. now apply trimEnd_snoc_nonspace.
Qed.

Lemma slice_substring text f l :
  (f <= l)%nat -> (l < List.length text)%nat ->
  slice text (Z.of_nat f) (Z.of_nat l + 1) = substring text f (S l).
Proof.
  intros Hfl Hl. unfold slice, substring.
  destruct (Z.ltb_spec (Z.of_nat f) 0); [lia|].
  destruct (Z.ltb_spec (Z.of_nat l + 1) 0); [lia|].
  f_equal; [|f_equal]; lia.
Qed.

(** Past the fence test, [extractJsonMaybe] is brace scanning. *)
Lemma extract_brace_scan text :
  text <> [] ->
  fence_and_1 (String_match text true fence_re) = None ->
  extractJsonMaybe text = brace_candidate text.
Proof.
  intros Hne Hf. unfold extractJsonMaybe, brace_candidate.
  destruct text as [|c text]; [congruence|]. cbn [truthy negb].
  rewrite Hf. unfold indexOf, lastIndexOf.
  rewrite indexOf_from_find, lastIndexOf_from_find.
  destruct (find_sub lbrace (c :: text)) as [f|] eqn:Ef; [|reflexivity].
  destruct (find_last rbrace (c :: text)) as [l|] eqn:El.
  2:{ destruct (0 + Z.of_nat f =? -1)%Z; reflexivity. }
  apply find_sub_first in Ef. apply find_last_rbrace in El.
  destruct Ef as [Ef _]. destruct El as [El _].
  pose proof (occurs_at_lt _ _ _ _ El) as Hlen.
  cbn [Z.add].
  destruct (Z.eqb_spec (Z.of_nat f) (-1)); [lia|].
  destruct (Z.eqb_spec (Z.of_nat l) (-1)); [lia|].
  cbn [negb andb]. rewrite Z.gtb_ltb.
  destruct (Nat.ltb_spec f l), (Z.ltb_spec (Z.of_nat f) (Z.of_nat l));
    try lia; [|reflexivity].
  rewrite slice_substring by lia. f_equal. now apply trim_braces.
Qed.

(** ** [extractJsonMaybe] against the specification *)

(** The whole function in the specification's terms. *)
Lemma extractJsonMaybe_spec text :
  extractJsonMaybe text
  = match text with
    | [] => None
    | _ :: _ =>
        match first_fence_interior text with
        | Some b => if truthy (trim b) then Some (trim b) else brace_candidate text
        | None => brace_candidate text
        end
    end.
Proof.
  destruct text as [|c text]; [reflexivity|].
  pose proof (fence_and_1_interior (c :: text)) as H.
  destruct (fence_and_1 (String_match (c :: text) true fence_re)) as [g|] eqn:E.
  - unfold extractJsonMaybe. cbn [truthy negb]. rewrite E.
    destruct (first_fence_interior (c :: text)) as [b|]; [|discriminate].
    destruct (truthy (trim b)); [|discriminate].
    injection H as ->. now rewrite trim_idem.
  - rewrite extract_brace_scan by (assumption || discriminate).
    destruct (first_fence_interior (c :: text)) as [b|]; [|reflexivity].
    destruct (truthy (trim b)); [discriminate|reflexivity].
Qed.

Lemma substring_nonempty text f l :
  (f <= l)%nat -> occurs_at lbrace text f -> substring text f (S l) <> [].
Proof.
  unfold occurs_at, substring. intros Hfl Hf.
  apply starts_with_single in Hf. destruct Hf as [r Hf]. rewrite Hf.
  destruct (S l - f)%nat eqn:E; [lia|]. discriminate.
Qed.

Lemma brace_candidate_nonempty text c :
  brace_candidate text = Some c -> c <> [].
Proof.
  unfold brace_candidate.
  destruct (find_sub lbrace text) as [f|] eqn:Ef; [|discriminate].
  destruct (find_last rbrace text) as [l|]; [|discriminate].
  destruct (Nat.ltb_spec f l); [|discriminate]. intros [= <-].
  apply substring_nonempty; [lia|]. now apply find_sub_first in Ef as [Ef _].
Qed.

(** A candidate is never the empty string. *)
Lemma extractJsonMaybe_nonempty text c :
  extractJsonMaybe text = Some c -> c <> [].
Proof.
  rewrite extractJsonMaybe_spec. destruct text as [|x text]; [discriminate|].
  destruct (first_fence_interior (x :: text)) as [b|].
  - destruct (truthy (trim b)) eqn:E.
    + intros [= <-]. destruct (trim b); [discriminate|discriminate].
    + apply brace_candidate_nonempty.
  - apply brace_candidate_nonempty.
Qed.

(** C2. For every non-empty reply text with no fenced code block: when the
    first opening brace lies strictly before the last closing brace,
    [extractJsonMaybe] returns the trimmed substring from the one through
    the other, both included; otherwise it signals no candidate.  On
    [Here is data: {"a":1} thanks] it returns [{"a":1}]. *)
Theorem extractJsonMaybe_brace_scanning :
  (forall text,
     text <> [] ->
     first_fence_interior text = None ->
     (forall f l,
        first_occurrence lbrace text f ->
        last_occurrence rbrace text l ->
        (f < l)%nat ->
        extractJsonMaybe text = Some (trim (substring text f (S l))))
     /\ ((~ exists f l,
             first_occurrence lbrace text f
             /\ last_occurrence rbrace text l /\ (f < l)%nat) ->
         extractJsonMaybe text = None))
  /\ extractJsonMaybe (jsq "Here is data: {'a':1} thanks") = Some (jsq "{'a':1}").
Proof.
  split; [|reflexivity].
  intros text Hne Hno. rewrite extractJsonMaybe_spec, Hno.
  destruct text as [|c text]; [congruence|]. unfold brace_candidate. split.
  - intros f l Hf Hl Hlt.
    pose proof (proj1 Hf) as Hof. pose proof (proj1 Hl) as Hol.
    apply find_sub_first in Hf. apply find_last_rbrace in Hl.
    rewrite Hf, Hl. destruct (Nat.ltb_spec f l); [|lia].
    now rewrite trim_braces.
  - intros Hnone.
    destruct (find_sub lbrace (c :: text)) as [f|] eqn:Ef; [|reflexivity].
    destruct (find_last rbrace (c :: text)) as [l|] eqn:El; [|reflexivity].
    destruct (Nat.ltb_spec f l); [|reflexivity].
    exfalso. apply Hnone. exists f, l.
    apply find_sub_first in Ef. apply find_last_rbrace in El. auto.
Qed.

(** C3, amended. For every reply text whose first fenced code block has
    a trimmed interior that is not empty, [extractJsonMaybe] returns the
    trimmed interior of that first block, whatever braces the text
    has. *)
Theorem extractJsonMaybe_fence_first text b :
  first_fence_interior text = Some b ->
  trim b <> [] ->
  extractJsonMaybe text = Some (trim b).
Proof.
  intros Hb Hne. rewrite extractJsonMaybe_spec, Hb.
  destruct text as [|c text]; [discriminate|].
  destruct (trim b); [congruence|reflexivity].
Qed.

(** C9, amended. For every reply text whose first fenced code block,
    the one the pattern captures, has an empty or white-space interior,
    [extractJsonMaybe] does not return that empty interior: it returns
    what brace scanning over the whole text finds, and no candidate when
    there is no brace pair.  For no text at all does it return an empty
    string. *)
Theorem extractJsonMaybe_blank_fence :
  (forall text, extractJsonMaybe text <> Some [])
  /\ (forall text b,
        first_fence_interior text = Some b ->
        trim b = [] ->
        extractJsonMaybe text = brace_candidate text
        /\ (find_sub lbrace text = None \/ find_last rbrace text = None ->
            extractJsonMaybe text = None)).
Proof.
  split.
  - intros text E. now apply extractJsonMaybe_nonempty in E.
  - intros text b Hb He.
    assert (H : extractJsonMaybe text = brace_candidate text).
    { rewrite extractJsonMaybe_spec, Hb, He.
      destruct text; [discriminate|reflexivity]. }
    split; [exact H|].
    rewrite H. unfold brace_candidate. intros [-> | ->]; [reflexivity|].
    destruct (find_sub lbrace text); reflexivity.
Qed.

(** ** The handler *)

Lemma or_else_parse_input rawText :
  or_else (extractJsonMaybe rawText) rawText = parse_input rawText.
Proof.
  unfold parse_input.
  destruct (extractJsonMaybe rawText) as [c|] eqn:E; [|reflexivity].
  apply extractJsonMaybe_nonempty in E. destruct c; [congruence|reflexivity].
Qed.

(** With a file and a reply from the inference client, the handler
    answers with what lines 140 to 148 make of the reply. *)
Lemma analyze_reply h req f tr rawText tr' :
  file req = Some f ->
  callGemini h (toString_base64 (buffer f)) (mimetype f) (originalname f) tr
  = (Returned rawText, tr') ->
  analyze h req tr = (Returned (respond rawText), tr').
Proof.
  intros Hf Hc. unfold analyze, try_catch, bind. rewrite Hf, Hc. reflexivity.
Qed.

Lemma respond_parsed rawText v :
  JSON_parse (parse_input rawText) = Some v -> respond rawText = success v.
Proof.
  intros H. unfold respond. now rewrite or_else_parse_input, H.
Qed.

Lemma respond_unparsed rawText :
  JSON_parse (parse_input rawText) = None ->
  respond rawText = success (fallback rawText).
Proof.
  intros H. unfold respond. now rewrite or_else_parse_input, H.
Qed.

(** C1. Whenever what the handler gives to [JSON.parse] (the extracted
    candidate, or the raw reply when there is none) does not parse, the
    request does not fail: the response is the success envelope whose data
    is the "other" document titled "Analysis", with an empty summary and
    the raw reply, verbatim, as notes. *)
Theorem analyze_fallback h req f tr rawText tr' :
  file req = Some f ->
  callGemini h (toString_base64 (buffer f)) (mimetype f) (originalname f) tr
  = (Returned rawText, tr') ->
  JSON_parse (parse_input rawText) = None ->
  analyze h req tr
  = (Returned
       (MkResponse 200
          (JObject
             [(js "ok", JBool true);
              (js "data",
               JObject
                 [(js "document_type", JString (js "other"));
                  (js "title", JString (js "Analysis"));
                  (js "summary", JString []);
                  (js "notes", JString rawText)])])),
     tr').
Proof.
  intros Hf Hc Hp. rewrite (analyze_reply h req f tr rawText tr' Hf Hc).
  now rewrite respond_unparsed.
Qed.

(** C4. A request without an uploaded file is answered with status 400
    and the body [{error: "No file uploaded"}], and the run adds nothing
    to the effects: no outbound call is made. *)
Theorem analyze_no_file h req tr :
  file req = None ->
  analyze h req tr
  = (Returned
       (MkResponse 400 (JObject [(js "error", JString (js "No file uploaded"))])),
     tr).
Proof.
  intros Hf. unfold analyze, try_catch. now rewrite Hf.
Qed.

(** C5. With no credential configured, the inference client throws
    "Missing GOOGLE_API_KEY" and adds nothing to the effects: no request
    is sent. *)
Theorem callGemini_missing_key h base64 mime filename tr :
  GOOGLE_API_KEY h = [] ->
  callGemini h base64 mime filename tr
  = (Thrown (js "Missing GOOGLE_API_KEY"), tr).
Proof.
  intros Hk. unfold callGemini. now rewrite Hk.
Qed.

(** C6. Whenever what the handler gives to [JSON.parse] parses, the
    response is the success envelope around the parsed value; the reply
    [{"document_type":"other","title":"T","summary":"S","notes":"N"}]
    yields that object as data. *)
Theorem analyze_parsed h req f tr tr' :
  file req = Some f ->
  (forall rawText v,
     callGemini h (toString_base64 (buffer f)) (mimetype f) (originalname f) tr
     = (Returned rawText, tr') ->
     JSON_parse (parse_input rawText) = Some v ->
     analyze h req tr
     = (Returned
          (MkResponse 200 (JObject [(js "ok", JBool true); (js "data", v)])),
        tr'))
  /\ (callGemini h (toString_base64 (buffer f)) (mimetype f) (originalname f) tr
      = (Returned
           (jsq "{'document_type':'other','title':'T','summary':'S','notes':'N'}"),
         tr') ->
      analyze h req tr
      = (Returned
           (MkResponse 200
              (JObject
                 [(js "ok", JBool true);
                  (js "data",
                   JObject
                     [(js "document_type", JString (js "other"));
                      (js "title", JString (js "T"));
                      (js "summary", JString (js "S"));
                      (js "notes", JString (js "N"))])])),
         tr')).
Proof.
  intros Hf. split.
  - intros rawText v Hc Hp.
    rewrite (analyze_reply h req f tr rawText tr' Hf Hc).
    now rewrite (respond_parsed rawText v Hp).
  - intros Hc. now rewrite (analyze_reply h req f tr _ tr' Hf Hc).
Qed.

(** C10. A raw reply with no fenced block and no brace pair that is
    itself valid JSON gives no candidate, parses, and comes back verbatim
    as data; for [123], [[1,2]] and ["hi"] the data is a number, an array
    and a string, none of them a result document. *)
Theorem analyze_bare_json :
  (forall h req f tr tr' rawText v,
     file req = Some f ->
     callGemini h (toString_base64 (buffer f)) (mimetype f) (originalname f) tr
     = (Returned rawText, tr') ->
     first_fence_interior rawText = None ->
     brace_candidate rawText = None ->
     JSON_parse rawText = Some v ->
     extractJsonMaybe rawText = None
     /\ analyze h req tr = (Returned (success v), tr'))
  /\ (extractJsonMaybe (js "123") = None
      /\ respond (js "123") = success (JNumber (js "123"))
      /\ is_result_document (JNumber (js "123")) = false)
  /\ (extractJsonMaybe (js "[1,2]") = None
      /\ respond (js "[1,2]") = success (JArray [JNumber (js "1"); JNumber (js "2")])
      /\ is_result_document (JArray [JNumber (js "1"); JNumber (js "2")]) = false)
  /\ (extractJsonMaybe (jsq "'hi'") = None
      /\ respond (jsq "'hi'") = success (JString (js "hi"))
      /\ is_result_document (JString (js "hi")) = false).
Proof.
  split; [|repeat split; reflexivity].
  intros h req f tr tr' rawText v Hf Hc Hno Hbr Hp.
  assert (He : extractJsonMaybe rawText = None).
  { rewrite extractJsonMaybe_spec, Hno, Hbr. destruct rawText; reflexivity. }
  split; [exact He|].
  rewrite (analyze_reply h req f tr rawText tr' Hf Hc).
  rewrite (respond_parsed rawText v); [reflexivity|].
  unfold parse_input. now rewrite He.
Qed.

(** ** The inference client *)

Lemma all_some_map_some (A B : Type) (g : A -> B) (l : list A) :
  all_some (List.map (fun a => Some (g a)) l) = Some (List.map g l).
Proof.
  induction l as [|a l IH]; [reflexivity|]. cbn [List.map all_some].
  now rewrite IH.
Qed.

Lemma map_ext_Forall (A B : Type) (P : A -> Prop) (g g' : A -> B) l :
  Forall P l -> (forall a, P a -> g a = g' a) -> List.map g l = List.map g' l.
Proof.
  intros H Hg. induction H as [|a l Ha _ IH]; [reflexivity|].
  cbn [List.map]. now rewrite IH, (Hg a Ha).
Qed.

(** The parts of a well-formed reply, mapped and joined. *)
Lemma join_parts h parts :
  Forall part_ok parts ->
  all_some (List.map part_text parts)
  = Some (List.map (fun p => Get p (js "text")) parts)
  /\ Array_join h (List.map (fun p => Get p (js "text")) parts) [10]
     = Some (join_with [10] (List.map part_segment parts)).
Proof.
  intros Hok. split.
  - rewrite <- all_some_map_some. f_equal.
    apply (map_ext_Forall _ _ part_ok); [assumption|].
    intros [| | | | |props] Hp; try contradiction. reflexivity.
  - unfold Array_join. rewrite map_map.
    rewrite (map_ext_Forall _ _ part_ok _ (fun p => Some (part_segment p)))
      by (try assumption;
          intros [| | | | |props] Hp; try contradiction;
          unfold part_segment; cbn [part_ok Get] in *;
          destruct (lookup (js "text") props) as [[]|];
          solve [contradiction | reflexivity]).
    now rewrite all_some_map_some.
Qed.

Lemma reply_text_parts h data parts tr fallback_text :
  candidate_parts data = Some parts ->
  Forall part_ok parts ->
  exists joined,
    reply_text h data tr = (Returned joined, tr)
    /\ or_else joined fallback_text
       = if truthy (join_with [10] (List.map part_segment parts))
         then join_with [10] (List.map part_segment parts)
         else fallback_text.
Proof.
  intros Hparts Hok. unfold reply_text.
  assert (Habsent : parts = [] ->
            exists joined : option jsstring,
              @ret (option jsstring) None tr = (Returned joined, tr)
              /\ or_else joined fallback_text
                 = if truthy (join_with [10] (List.map part_segment parts))
                   then join_with [10] (List.map part_segment parts)
                   else fallback_text).
  { intros ->. exists None. split; reflexivity. }
  destruct data as [| | | | |d]; try discriminate.
  cbn [candidate_parts] in Hparts. cbn [chain Get].
  destruct (lookup (js "candidates") d) as [[| | | |[|[| | | | |c] rest]|]|];
    try discriminate; cbn [chain Get_0 nth_error Get];
    try (injection Hparts as <-; now apply Habsent).
  destruct (lookup (js "content") c) as [[| | | | |ct]|];
    try discriminate; cbn [chain Get];
    try (injection Hparts as <-; now apply Habsent).
  destruct (lookup (js "parts") ct) as [[| | | |items|]|];
    try discriminate; cbn [chain Get];
    try (injection Hparts as <-; now apply Habsent).
  injection Hparts as ->.
  destruct (join_parts h parts Hok) as [H1 H2]. rewrite H1, H2.
  exists (Some (join_with [10] (List.map part_segment parts))).
  split; [reflexivity|].
  cbn [or_else]. destruct (join_with [10] (List.map part_segment parts));
    reflexivity.
Qed.

(** ** Instances *)

Lemma analyze_fallback_witness :
  file a_request = Some a_file
  /\ callGemini (host_saying prose) (toString_base64 (buffer a_file))
       (mimetype a_file) (originalname a_file) []
     = (Returned prose,
        [Fetched (outbound (host_saying prose) (toString_base64 (buffer a_file))
                    (mimetype a_file) (originalname a_file))])
  /\ JSON_parse (parse_input prose) = None
  /\ analyze (host_saying prose) a_request []
     = (Returned
          (MkResponse 200
             (JObject
                [(js "ok", JBool true);
                 (js "data",
                  JObject
                    [(js "document_type", JString (js "other"));
                     (js "title", JString (js "Analysis"));
                     (js "summary", JString []);
                     (js "notes", JString prose)])])),
        [Fetched (outbound (host_saying prose) (toString_base64 (buffer a_file))
                    (mimetype a_file) (originalname a_file))]).
Proof.
  split; [reflexivity|]. split; [vm_compute; reflexivity|].
  split; [vm_compute; reflexivity|].
  apply (analyze_fallback (host_saying prose) a_request a_file [] prose);
    vm_compute; reflexivity.
Defined.

Lemma extractJsonMaybe_brace_scanning_witness :
  braces_example <> []
  /\ first_fence_interior braces_example = None
  /\ first_occurrence lbrace braces_example 14
  /\ last_occurrence rbrace braces_example 20
  /\ (14 < 20)%nat
  /\ extractJsonMaybe braces_example
     = Some (trim (substring braces_example 14 21))
  /\ js "no braces" <> []
  /\ first_fence_interior (js "no braces") = None
  /\ (~ exists f l,
        first_occurrence lbrace (js "no braces") f
        /\ last_occurrence rbrace (js "no braces") l /\ (f < l)%nat)
  /\ extractJsonMaybe (js "no braces") = None.
Proof.
  assert (H1 : braces_example <> []) by discriminate.
  assert (H2 : first_fence_interior braces_example = None) by reflexivity.
  assert (H3 : first_occurrence lbrace braces_example 14)
    by (apply find_sub_first; reflexivity).
  assert (H4 : last_occurrence rbrace braces_example 20)
    by (apply find_last_rbrace; reflexivity).
  assert (H5 : (14 < 20)%nat) by lia.
  assert (H6 : js "no braces" <> []) by discriminate.
  assert (H7 : first_fence_interior (js "no braces") = None) by reflexivity.
  assert (H8 : ~ exists f l,
               first_occurrence lbrace (js "no braces") f
               /\ last_occurrence rbrace (js "no braces") l /\ (f < l)%nat).
  { intros (f & l & Hf & _). apply find_sub_first in Hf. discriminate. }
  repeat (split; [assumption|]). split.
  - exact (proj1 (proj1 extractJsonMaybe_brace_scanning braces_example H1 H2)
             14%nat 20%nat H3 H4 H5).
  - repeat (split; [assumption|]).
    exact (proj2 (proj1 extractJsonMaybe_brace_scanning (js "no braces") H6 H7)
             H8).
Defined.

Lemma extractJsonMaybe_fence_first_witness :
  first_fence_interior fenced_example = Some (jsq "
{'a':1}
")
  /\ trim (jsq "
{'a':1}
") <> []
  /\ extractJsonMaybe fenced_example = Some (jsq "{'a':1}").
Proof.
  split; [reflexivity|]. split; [discriminate|].
  apply (extractJsonMaybe_fence_first fenced_example (jsq "
{'a':1}
")); [reflexivity|discriminate].
Defined.

(** C3 as stated fails: [``` ``` {}] has a fenced block, whose interior is
    one space, and [extractJsonMaybe] returns [{}], not the empty trimmed
    interior. *)
Lemma extractJsonMaybe_fence_counterexample :
  first_fence_interior blank_fence_example = Some (js " ")
  /\ extractJsonMaybe blank_fence_example = Some (js "{}")
  /\ Some (js "{}") <> Some (trim (js " ")).
Proof.
  split; [reflexivity|]. split; [reflexivity|]. discriminate.
Qed.

Lemma extractJsonMaybe_blank_fence_witness :
  first_fence_interior blank_fence_example = Some (js " ")
  /\ trim (js " ") = []
  /\ extractJsonMaybe blank_fence_example = brace_candidate blank_fence_example
  /\ (find_sub lbrace blank_fence_example = None
      \/ find_last rbrace blank_fence_example = None ->
      extractJsonMaybe blank_fence_example = None).
Proof.
  split; [reflexivity|]. split; [reflexivity|].
  apply (proj2 extractJsonMaybe_blank_fence blank_fence_example (js " "));
    reflexivity.
Defined.

Lemma analyze_no_file_witness :
  file (MkRequest None) = None
  /\ analyze (host_saying prose) (MkRequest None) []
     = (Returned
          (MkResponse 400
             (JObject [(js "error", JString (js "No file uploaded"))])),
        []).
Proof.
  split; [reflexivity|].
  apply (analyze_no_file (host_saying prose) (MkRequest None) []). reflexivity.
Defined.

Lemma callGemini_missing_key_witness :
  GOOGLE_API_KEY (host_replying [] 200 prose) = []
  /\ callGemini (host_replying [] 200 prose) (js "TWFuIQ==") (js "image/png")
       (js "r.png") []
     = (Thrown (js "Missing GOOGLE_API_KEY"), []).
Proof.
  split; [reflexivity|].
  apply (callGemini_missing_key (host_replying [] 200 prose)). reflexivity.
Defined.

Lemma analyze_parsed_witness :
  file a_request = Some a_file
  /\ callGemini doc_host (toString_base64 (buffer a_file)) (mimetype a_file)
       (originalname a_file) []
     = (Returned doc_reply,
        [Fetched (outbound doc_host (toString_base64 (buffer a_file))
                    (mimetype a_file) (originalname a_file))])
  /\ JSON_parse (parse_input doc_reply)
     = Some
         (JObject
            [(js "document_type", JString (js "other"));
             (js "title", JString (js "T"));
             (js "summary", JString (js "S"));
             (js "notes", JString (js "N"))])
  /\ analyze doc_host a_request []
     = (Returned
          (MkResponse 200
             (JObject
                [(js "ok", JBool true);
                 (js "data",
                  JObject
                    [(js "document_type", JString (js "other"));
                     (js "title", JString (js "T"));
                     (js "summary", JString (js "S"));
                     (js "notes", JString (js "N"))])])),
        [Fetched (outbound doc_host (toString_base64 (buffer a_file))
                    (mimetype a_file) (originalname a_file))]).
Proof.
  assert (Hf : file a_request = Some a_file) by reflexivity.
  split; [exact Hf|]. split; [vm_compute; reflexivity|].
  split; [vm_compute; reflexivity|].
  apply (proj1 (analyze_parsed doc_host a_request a_file [] _ Hf) doc_reply);
    vm_compute; reflexivity.
Defined.

Lemma analyze_bare_json_witness :
  file a_request = Some a_file
  /\ callGemini (host_saying (js "123")) (toString_base64 (buffer a_file))
       (mimetype a_file) (originalname a_file) []
     = (Returned (js "123"),
        [Fetched (outbound (host_saying (js "123"))
                    (toString_base64 (buffer a_file)) (mimetype a_file)
                    (originalname a_file))])
  /\ first_fence_interior (js "123") = None
  /\ brace_candidate (js "123") = None
  /\ JSON_parse (js "123") = Some (JNumber (js "123"))
  /\ extractJsonMaybe (js "123") = None
  /\ analyze (host_saying (js "123")) a_request []
     = (Returned (success (JNumber (js "123"))),
        [Fetched (outbound (host_saying (js "123"))
                    (toString_base64 (buffer a_file)) (mimetype a_file)
                    (originalname a_file))]).
Proof.
  split; [reflexivity|]. split; [vm_compute; reflexivity|].
  split; [reflexivity|]. split; [reflexivity|]. split; [reflexivity|].
  apply (proj1 analyze_bare_json (host_saying (js "123")) a_request a_file []);
    vm_compute; reflexivity.
Defined.

(** C7 as stated fails: for the reply [gap_body], whose first candidate
    has the text segments [a] and [b] around a part without text, the
    client returns [a], two line feeds and [b], not the segments joined by
    one line feed. *)
Lemma callGemini_reply_text_counterexample :
  JSON_parse gap_body = Some gap_data
  /\ candidate_parts gap_data = Some gap_parts
  /\ text_segments gap_parts = [js "a"; js "b"]
  /\ fst (callGemini (host_replying (js "k") 200 gap_body) (js "TWFuIQ==")
            (js "image/png") (js "r.png") [])
     = Returned (js "a" ++ [10; 10] ++ js "b")
  /\ js "a" ++ [10; 10] ++ js "b" <> join_with [10] (text_segments gap_parts).
Proof.
  repeat split; try reflexivity. discriminate.
Qed.

(** ** [JSON.parse]: the fuel is enough *)

Lemma skip_ws_length s : (List.length (skip_ws s) <= List.length s)%nat.
Proof.
  induction s as [|c s IH]; cbn [skip_ws]; [lia|].
  destruct (json_ws c); cbn [List.length]; lia.
Qed.

Lemma eat_length c s r : eat c s = Some r -> List.length s = S (List.length r).
Proof.
  destruct s as [|x s]; cbn [eat]; [discriminate|].
  destruct (x =? c); [|discriminate]. now intros [= ->].
Qed.

Lemma span_digits_length s :
  (List.length (snd (span_digits s)) <= List.length s)%nat.
Proof.
  induction s as [|c s IH]; cbn [span_digits]; [cbn; lia|].
  destruct (is_digit c); [|cbn; lia].
  destruct (span_digits s) as [ds r]. cbn [snd List.length] in *. lia.
Qed.

Lemma cons_to_some u x str rest :
  cons_to u x = Some (str, rest) -> exists str', x = Some (str', rest).
Proof.
  destruct x as [[str' rest']|]; cbn [cons_to]; [|discriminate].
  intros [= _ ->]. eauto.
Qed.

Lemma lex_string_length n s str rest :
  (List.length s <= n)%nat ->
  lex_string s = Some (str, rest) ->
  (List.length rest < List.length s)%nat.
Proof.
  revert s str rest. induction n as [|n IH]; intros s str rest Hn H;
    destruct s as [|c r]; cbn [lex_string] in H; try discriminate;
    cbn [List.length] in Hn; [lia|].
  destruct (c =? 34); [injection H as _ <-; cbn; lia|].
  destruct (c =? 92).
  - destruct r as [|e r1]; [discriminate|]. destruct (e =? 117).
    + destruct r1 as [|a [|b [|c' [|d r2]]]]; try discriminate.
      destruct (hex4 a b c' d); [|discriminate].
      apply cons_to_some in H. destruct H as [str' H].
      apply IH in H; cbn [List.length] in *; lia.
    + destruct (unescape e); [|discriminate].
      apply cons_to_some in H. destruct H as [str' H].
      apply IH in H; cbn [List.length] in *; lia.
  - destruct (c <? 32); [discriminate|].
    apply cons_to_some in H. destruct H as [str' H].
    apply IH in H; cbn [List.length] in *; lia.
Qed.

Lemma lex_sign_length s :
  (List.length (snd (lex_sign s)) <= List.length s)%nat.
Proof.
  destruct s as [|c r]; cbn [lex_sign]; [cbn; lia|].
  destruct (c =? 45); cbn; lia.
Qed.

Lemma lex_int_length s i rest :
  lex_int s = Some (i, rest) -> (List.length rest < List.length s)%nat.
Proof.
  destruct s as [|c r]; cbn [lex_int]; [discriminate|].
  destruct (c =? 48); [intros [= _ <-]; cbn; lia|].
  destruct (is_digit c); [|discriminate].
  pose proof (span_digits_length r) as Hd.
  destruct (span_digits r) as [ds r']. intros [= _ <-].
  cbn [snd List.length] in *. lia.
Qed.

Lemma lex_frac_length s f rest :
  lex_frac s = Some (f, rest) -> (List.length rest <= List.length s)%nat.
Proof.
  destruct s as [|c r]; cbn [lex_frac]; [now intros [= _ <-]|].
  destruct (c =? 46); [|now intros [= _ <-]].
  pose proof (span_digits_length r) as Hd.
  destruct (span_digits r) as [[|d ds] r']; [discriminate|].
  intros [= _ <-]. cbn [snd List.length] in *. lia.
Qed.

Lemma lex_exp_length s x rest :
  lex_exp s = Some (x, rest) -> (List.length rest <= List.length s)%nat.
Proof.
  destruct s as [|e r]; cbn [lex_exp]; [now intros [= _ <-]|].
  destruct ((e =? 101) || (e =? 69)); [|now intros [= _ <-]].
  assert (Hsg : (List.length (snd (lex_exp_sign r)) <= List.length r)%nat).
  { destruct r as [|c r0]; cbn [lex_exp_sign]; [cbn; lia|].
    destruct ((c =? 43) || (c =? 45)); cbn; lia. }
  destruct (lex_exp_sign r) as [sg r1].
  pose proof (span_digits_length r1) as Hd.
  destruct (span_digits r1) as [[|d ds] r']; [discriminate|].
  intros [= _ <-]. cbn [snd List.length] in *. lia.
Qed.

Lemma lex_number_length s n rest :
  lex_number s = Some (n, rest) -> (List.length rest < List.length s)%nat.
Proof.
  unfold lex_number. pose proof (lex_sign_length s) as Hs.
  destruct (lex_sign s) as [sign s1].
  destruct (lex_int s1) as [[i s2]|] eqn:Ei; [|discriminate].
  destruct (lex_frac s2) as [[f s3]|] eqn:Ef; [|discriminate].
  destruct (lex_exp s3) as [[x s4]|] eqn:Ex; [|discriminate].
  intros [= _ <-]. apply lex_int_length in Ei. apply lex_frac_length in Ef.
  apply lex_exp_length in Ex. cbn [snd] in Hs. lia.
Qed.

Lemma lex_word_length w v s v' rest :
  w <> [] -> lex_word w v s = Some (v', rest) ->
  (List.length rest < List.length s)%nat.
Proof.
  unfold lex_word. intros Hw H.
  destruct (starts_with w s) eqn:E; [|discriminate]. injection H as _ <-.
  destruct w as [|p w]; [congruence|]. destruct s as [|c s]; [discriminate|].
  cbn [List.length skipn]. pose proof (length_skipn (List.length w) s). lia.
Qed.

(** Every successful call consumes at least one character. *)
Lemma parse_consumes f :
  (forall s v r,
     parse_value f s = Some (v, r) -> (List.length r < List.length s)%nat)
  /\ (forall s acc v r,
        parse_items f s acc = Some (v, r) ->
        (List.length r < List.length s)%nat)
  /\ (forall s acc v r,
        parse_members f s acc = Some (v, r) ->
        (List.length r < List.length s)%nat).
Proof.
  induction f as [|f (IHV & IHI & IHM)];
    [repeat split; intros; discriminate|].
  repeat split.
  - intros s v r H. cbn [parse_value] in H.
    pose proof (skip_ws_length s) as Hs.
    destruct (skip_ws s) as [|c r0]; [discriminate|].
    pose proof (skip_ws_length r0) as Hr0. cbn [List.length] in Hs.
    destruct (c =? 123).
    { destruct (eat 125 (skip_ws r0)) as [r'|] eqn:Ee.
      - injection H as _ <-. apply eat_length in Ee. lia.
      - apply IHM in H. lia. }
    destruct (c =? 91).
    { destruct (eat 93 (skip_ws r0)) as [r'|] eqn:Ee.
      - injection H as _ <-. apply eat_length in Ee. lia.
      - apply IHI in H. lia. }
    destruct (c =? 34).
    { destruct (lex_string r0) as [[str rest]|] eqn:El; [|discriminate].
      injection H as _ <-. apply (lex_string_length _ _ _ _ (le_n _)) in El.
      lia. }
    destruct (c =? 110);
      [apply lex_word_length in H; [cbn [List.length] in H; lia|discriminate]|].
    destruct (c =? 116);
      [apply lex_word_length in H; [cbn [List.length] in H; lia|discriminate]|].
    destruct (c =? 102);
      [apply lex_word_length in H; [cbn [List.length] in H; lia|discriminate]|].
    destruct (lex_number (c :: r0)) as [[n rest]|] eqn:En; [|discriminate].
    injection H as _ <-. apply lex_number_length in En.
    cbn [List.length] in En. lia.
  - intros s acc v r H. cbn [parse_items] in H.
    destruct (parse_value f s) as [[v0 r0]|] eqn:Ev; [|discriminate].
    apply IHV in Ev. pose proof (skip_ws_length r0) as Hr0.
    destruct (skip_ws r0) as [|c r1]; [discriminate|].
    cbn [List.length] in Hr0. destruct (c =? 44).
    + apply IHI in H. lia.
    + destruct (c =? 93); [|discriminate]. injection H as _ <-. lia.
  - intros s acc v r H. cbn [parse_members] in H.
    pose proof (skip_ws_length s) as Hs.
    destruct (eat 34 (skip_ws s)) as [r0|] eqn:Ee; [|discriminate].
    apply eat_length in Ee.
    destruct (lex_string r0) as [[key r1]|] eqn:El; [|discriminate].
    apply (lex_string_length _ _ _ _ (le_n _)) in El.
    pose proof (skip_ws_length r1) as Hr1.
    destruct (eat 58 (skip_ws r1)) as [r2|] eqn:Ec; [|discriminate].
    apply eat_length in Ec.
    destruct (parse_value f r2) as [[v0 r3]|] eqn:Ev; [|discriminate].
    apply IHV in Ev. pose proof (skip_ws_length r3) as Hr3.
    destruct (skip_ws r3) as [|c r4]; [discriminate|].
    cbn [List.length] in Hr3. destruct (c =? 44).
    + apply IHM in H. lia.
    + destruct (c =? 125); [|discriminate]. injection H as _ <-. lia.
Qed.

(** A result obtained with some fuel is obtained with any fuel above
    twice the length of the input. *)
Lemma parse_fuel f :
  (forall s r n,
     parse_value f s = Some r -> (2 * List.length s + 1 <= n)%nat ->
     parse_value n s = Some r)
  /\ (forall s acc r n,
        parse_items f s acc = Some r -> (2 * List.length s + 2 <= n)%nat ->
        parse_items n s acc = Some r)
  /\ (forall s acc r n,
        parse_members f s acc = Some r -> (2 * List.length s + 2 <= n)%nat ->
        parse_members n s acc = Some r).
Proof.
  induction f as [|f (IHV & IHI & IHM)];
    [repeat split; intros; discriminate|].
  destruct (parse_consumes f) as (CV & _ & _).
  repeat split.
  - intros s r n H Hn. destruct n as [|n]; [lia|].
    cbn [parse_value] in H |- *.
    pose proof (skip_ws_length s) as Hs.
    destruct (skip_ws s) as [|c r0]; [discriminate|].
    pose proof (skip_ws_length r0) as Hr0. cbn [List.length] in Hs.
    destruct (c =? 123).
    { destruct (eat 125 (skip_ws r0)); [exact H|]. apply (IHM _ _ _ _ H). lia. }
    destruct (c =? 91).
    { destruct (eat 93 (skip_ws r0)); [exact H|]. apply (IHI _ _ _ _ H). lia. }
    exact H.
  - intros s acc r n H Hn. destruct n as [|n]; [lia|].
    cbn [parse_items] in H |- *.
    destruct (parse_value f s) as [[v0 r0]|] eqn:Ev; [|discriminate].
    rewrite (IHV _ _ n Ev) by lia. apply CV in Ev.
    pose proof (skip_ws_length r0) as Hr0.
    destruct (skip_ws r0) as [|c r1]; [discriminate|].
    cbn [List.length] in Hr0.
    destruct (c =? 44); [|exact H]. apply (IHI _ _ _ _ H). lia.
  - intros s acc r n H Hn. destruct n as [|n]; [lia|].
    cbn [parse_members] in H |- *.
    pose proof (skip_ws_length s) as Hs.
    destruct (eat 34 (skip_ws s)) as [r0|] eqn:Ee; [|discriminate].
    apply eat_length in Ee.
    destruct (lex_string r0) as [[key r1]|] eqn:El; [|discriminate].
    apply (lex_string_length _ _ _ _ (le_n _)) in El.
    pose proof (skip_ws_length r1) as Hr1.
    destruct (eat 58 (skip_ws r1)) as [r2|] eqn:Ec; [|discriminate].
    apply eat_length in Ec.
    destruct (parse_value f r2) as [[v0 r3]|] eqn:Ev; [|discriminate].
    rewrite (IHV _ _ n Ev) by lia. apply CV in Ev.
    pose proof (skip_ws_length r3) as Hr3.
    destruct (skip_ws r3) as [|c r4]; [discriminate|].
    cbn [List.length] in Hr3.
    destruct (c =? 44); [|exact H]. apply (IHM _ _ _ _ H). lia.
Qed.

(** [JSON_parse] fails for no want of fuel: a text that parses with some
    fuel parses with the fuel [JSON_parse] gives. *)
Lemma JSON_parse_fuel text f v rest :
  parse_value f text = Some (v, rest) ->
  skip_ws rest = [] ->
  JSON_parse text = Some v.
Proof.
  intros H Hrest. unfold JSON_parse.
  rewrite (proj1 (parse_fuel f) text (v, rest) _ H (le_n _)).
  now rewrite Hrest.
Qed.

(** ** Further facts *)

(** The extractor properties the specification lists as testable. *)
Example extract_fenced_json :
  extractJsonMaybe (jsq "```json
{'a':1}
```") = Some (jsq "{'a':1}").
Proof. reflexivity. Qed.

Example extract_empty : extractJsonMaybe [] = None.
Proof. reflexivity. Qed.

Example extract_upper_case_tag :
  extractJsonMaybe (jsq "```JSON {'a':1} ``` and {'b':2}") = Some (jsq "{'a':1}").
Proof. reflexivity. Qed.

Example extract_unclosed_fence :
  extractJsonMaybe (jsq "```json {'a':1}") = Some (jsq "{'a':1}").
Proof. reflexivity. Qed.

Lemma starts_with_split pat s :
  starts_with pat s = true -> s = pat ++ skipn (List.length pat) s.
Proof.
  revert s. induction pat as [|p pat IH]; intros s H; [reflexivity|].
  destruct s as [|c s]; [discriminate|]. rewrite starts_with_cons in H.
  apply andb_prop in H. destruct H as [Hc Hs]. apply N.eqb_eq in Hc. subst c.
  cbn [List.length skipn app]. f_equal. now apply IH.
Qed.

Lemma find_sub_split pat s i :
  find_sub pat s = Some i ->
  s = firstn i s ++ pat ++ skipn (i + List.length pat) s.
Proof.
  revert i. induction s as [|c s IH]; intros i; cbn [find_sub].
  - destruct (starts_with pat []) eqn:E; [|discriminate]. intros [= <-].
    now apply starts_with_split.
  - destruct (starts_with pat (c :: s)) eqn:E.
    + intros [= <-]. now apply starts_with_split.
    + destruct (find_sub pat s) as [n|]; [|discriminate]. intros [= <-].
      cbn [firstn Nat.add skipn app]. f_equal. now apply IH.
Qed.

Lemma strip_prefix_length i pat a b :
  strip_prefix i pat a = Some b ->
  List.length a = (List.length pat + List.length b)%nat.
Proof.
  revert a. induction pat as [|p pat IH]; intros a H.
  - cbn in H. now injection H as ->.
  - destruct a as [|c a]; [discriminate|]. cbn [strip_prefix] in H.
    destruct (chr_eq i p c); [|discriminate]. apply IH in H.
    cbn [List.length]. lia.
Qed.

(** What [first_fence_interior] finds: the text is some prefix, the first
    run of three backquotes, an optional four-letter tag, the interior,
    the next run of three backquotes and the rest. *)
Lemma first_fence_interior_shape text b :
  first_fence_interior text = Some b ->
  exists pre tag post,
    text = pre ++ ticks ++ tag ++ b ++ ticks ++ post
    /\ first_occurrence ticks text (List.length pre)
    /\ (tag = [] \/ strip_prefix true (js "json") tag = Some [])
    /\ first_occurrence ticks (b ++ ticks ++ post) (List.length b).
Proof.
  unfold first_fence_interior.
  destruct (find_sub ticks text) as [i|] eqn:Ei; [|discriminate].
  destruct (find_sub ticks (strip_tag (skipn (i + 3) text))) as [j|] eqn:Ej;
    [|discriminate].
  intros [= <-].
  pose proof (find_sub_split _ _ _ Ei) as Htext.
  pose proof (find_sub_split _ _ _ Ej) as Hafter.
  assert (Hi : List.length (firstn i text) = i).
  { apply find_sub_first in Ei. destruct Ei as [Ei _].
    rewrite ticks_eq in Ei. apply occurs_at_lt in Ei.
    rewrite length_firstn. lia. }
  assert (Hj : List.length
                 (firstn j (strip_tag (skipn (i + 3) text))) = j).
  { apply find_sub_first in Ej. destruct Ej as [Ej _].
    rewrite ticks_eq in Ej. apply occurs_at_lt in Ej.
    rewrite length_firstn. lia. }
  assert (Htag : exists tag,
            skipn (i + 3) text = tag ++ strip_tag (skipn (i + 3) text)
            /\ (tag = [] \/ strip_prefix true (js "json") tag = Some [])).
  { unfold strip_tag.
    destruct (strip_prefix true (js "json") (skipn (i + 3) text))
      as [x|] eqn:E.
    - exists (firstn 4 (skipn (i + 3) text)). split.
      + rewrite (strip_prefix_skipn _ _ _ _ E). symmetry. apply firstn_skipn.
      + right. pose proof (strip_prefix_length _ _ _ _ E) as Hl.
        clear - E Hl. change (js "json") with [106; 115; 111; 110] in *.
        destruct (skipn (i + 3) text) as [|c1 [|c2 [|c3 [|c4 r]]]];
          try (cbn in Hl; lia).
        cbn [strip_prefix firstn] in *.
        destruct (chr_eq true _ c1); [|discriminate].
        destruct (chr_eq true _ c2); [|discriminate].
        destruct (chr_eq true _ c3); [|discriminate].
        destruct (chr_eq true _ c4); [reflexivity|discriminate].
    - exists []. split; [reflexivity|now left]. }
  destruct Htag as (tag & Htag & Hshape).
  exists (firstn i text), tag,
    (skipn (j + 3) (strip_tag (skipn (i + 3) text))).
  assert (Hrest : strip_tag (skipn (i + 3) text)
                  = firstn j (strip_tag (skipn (i + 3) text)) ++ ticks
                    ++ skipn (j + 3) (strip_tag (skipn (i + 3) text)))
    by exact Hafter.
  split; [|split; [|split]].
  - rewrite <- Hrest, <- Htag. exact Htext.
  - rewrite Hi. now apply find_sub_first.
  - exact Hshape.
  - rewrite <- Hrest, Hj. now apply find_sub_first.
Qed.

(** When every part carries a string text, the segments the client joins
    are the text segments of the parts. *)
Lemma part_segments_all_text parts :
  Forall (fun p => exists s, Get p (js "text") = Some (JString s)) parts ->
  List.map part_segment parts = text_segments parts.
Proof.
  intros H. induction H as [|p parts [s Hs] _ IH]; [reflexivity|].
  cbn [List.map text_segments]. unfold part_segment at 1.
  now rewrite Hs, IH.
Qed.

(** A single part with an empty text: the joined string is empty, and the
    client returns [JSON.stringify] of the response. *)
Example callGemini_empty_text h :
  GOOGLE_API_KEY h = js "k" ->
  fetch h (outbound h [] [] [])
  = Replied 200 (jsq "{'candidates':[{'content':{'parts':[{'text':''}]}}]}") ->
  fst (callGemini h [] [] [] [])
  = Returned
      (JSON_stringify h
         (JObject
            [(js "candidates",
              JArray
                [JObject
                   [(js "content",
                     JObject
                       [(js "parts",
                         JArray [JObject [(js "text", JString [])]])])]])])).
Proof.
  intros Hk Hf. unfold callGemini. fold (outbound h [] [] []).
  rewrite Hk. unfold try_catch, bind, emit. rewrite Hf. reflexivity.
Qed.

(** The handler always answers: every failure inside it ends in a
    response with status 500. *)
Lemma analyze_always_responds h req tr :
  exists response tr', analyze h req tr = (Returned response, tr').
Proof.
  unfold analyze, try_catch. destruct (file req) as [f|]; [|cbn; eauto].
  unfold bind at 1.
  destruct (callGemini h (toString_base64 (buffer f)) (mimetype f)
              (originalname f) tr) as [[rawText|message] tr1];
    unfold bind, emit, ret; eauto.
Qed.

(** ** The client and the handler on every path *)

Lemma reply_text_pure h data tr :
  reply_text h data tr = (fst (reply_text h data []), tr).
Proof.
  unfold reply_text, ret, throw.
  repeat match goal with
  | |- context [match ?x with _ => _ end] => destruct x
  end; reflexivity.
Qed.

(** With a key, a call sends one request and ends as the reply of the
    network decides. *)
Lemma callGemini_with_key h base64 mime filename tr :
  GOOGLE_API_KEY h <> [] ->
  callGemini h base64 mime filename tr
  = (client_outcome h (fetch h (outbound h base64 mime filename)),
     tr ++ [Fetched (outbound h base64 mime filename)]).
Proof.
  intros Hk. unfold callGemini. fold (outbound h base64 mime filename).
  destruct (GOOGLE_API_KEY h) as [|k ks] eqn:Ek; [congruence|].
  cbn [truthy negb]. unfold try_catch, bind, emit, client_outcome.
  destruct (fetch h (outbound h base64 mime filename)) as [message|status t];
    [reflexivity|].
  destruct (res_ok status); cbn [negb]; [|reflexivity].
  destruct (JSON_parse t) as [data|]; [|reflexivity].
  rewrite reply_text_pure.
  destruct (fst (reply_text h data [])); reflexivity.
Qed.

Lemma analyze_thrown h req f tr message tr1 :
  file req = Some f ->
  callGemini h (toString_base64 (buffer f)) (mimetype f) (originalname f) tr
  = (Thrown message, tr1) ->
  analyze h req tr
  = (Returned
       (MkResponse 500
          (JObject [(js "error", JString (message_or message (js "Server error")))])),
     tr1 ++ [Logged message]).
Proof.
  intros Hf Hc. unfold analyze, try_catch, bind. rewrite Hf, Hc. reflexivity.
Qed.

Lemma callGemini_without_key h base64 mime filename tr :
  GOOGLE_API_KEY h = [] ->
  callGemini h base64 mime filename tr = (Thrown (js "Missing GOOGLE_API_KEY"), tr).
Proof. intros Hk. unfold callGemini. now rewrite Hk. Qed.

Lemma message_or_prefixed inner fallback_text :
  message_or (fetch_failed ++ inner) fallback_text = fetch_failed ++ inner.
Proof. reflexivity. Qed.

(** X1. With a file but the key variable unset or empty, the handler
    answers 500 with [{error: "Missing GOOGLE_API_KEY"}], writes that
    message to the error log and sends nothing. *)
Theorem analyze_missing_key h req f tr variable :
  file req = Some f ->
  GOOGLE_API_KEY h = key_of_env variable ->
  variable = None \/ variable = Some [] ->
  analyze h req tr
  = (Returned
       (MkResponse 500
          (JObject [(js "error", JString (js "Missing GOOGLE_API_KEY"))])),
     tr ++ [Logged (js "Missing GOOGLE_API_KEY")]).
Proof.
  intros Hf Hk Hv.
  assert (Hempty : GOOGLE_API_KEY h = []).
  { rewrite Hk. destruct Hv as [-> | ->]; reflexivity. }
  now rewrite (analyze_thrown h req f tr _ tr Hf
                 (callGemini_without_key h _ _ _ tr Hempty)).
Qed.

(** X2. When the service answers with a status outside 200 to 299, the
    handler answers 500 and its error is "Gemini fetch failed: Gemini
    HTTP", the status in decimal, a colon and the body of the answer: the
    client's own catch wraps the error it has just raised.  One request
    has been sent and the message logged. *)
Theorem analyze_upstream_status h req f tr status t :
  file req = Some f ->
  GOOGLE_API_KEY h <> [] ->
  fetch h (outbound h (toString_base64 (buffer f)) (mimetype f) (originalname f))
  = Replied status t ->
  res_ok status = false ->
  analyze h req tr
  = (Returned
       (MkResponse 500
          (JObject
             [(js "error",
               JString
                 (js "Gemini fetch failed: Gemini HTTP " ++ decimal status
                  ++ js ": " ++ t))])),
     tr ++ [Fetched (outbound h (toString_base64 (buffer f)) (mimetype f)
                      (originalname f));
            Logged (js "Gemini fetch failed: Gemini HTTP " ++ decimal status
                    ++ js ": " ++ t)]).
Proof.
  intros Hf Hk Hfetch Hok.
  pose proof (callGemini_with_key h (toString_base64 (buffer f)) (mimetype f)
                (originalname f) tr Hk) as Hc.
  rewrite Hfetch in Hc. cbn [client_outcome] in Hc. rewrite Hok in Hc.
  rewrite (analyze_thrown h req f tr _ _ Hf Hc), <- app_assoc. reflexivity.
Qed.

(** X3. When the request itself fails (the network, or the abort after 30
    seconds), the handler answers 500 with "Gemini fetch failed: " and the
    message of the failure; it does not try again. *)
Theorem analyze_network_failure h req f tr message :
  file req = Some f ->
  GOOGLE_API_KEY h <> [] ->
  fetch h (outbound h (toString_base64 (buffer f)) (mimetype f) (originalname f))
  = Rejected message ->
  analyze h req tr
  = (Returned
       (MkResponse 500
          (JObject [(js "error", JString (js "Gemini fetch failed: " ++ message))])),
     tr ++ [Fetched (outbound h (toString_base64 (buffer f)) (mimetype f)
                      (originalname f));
            Logged (js "Gemini fetch failed: " ++ message)]).
Proof.
  intros Hf Hk Hfetch.
  pose proof (callGemini_with_key h (toString_base64 (buffer f)) (mimetype f)
                (originalname f) tr Hk) as Hc.
  rewrite Hfetch in Hc. cbn [client_outcome] in Hc.
  rewrite (analyze_thrown h req f tr _ _ Hf Hc), <- app_assoc. reflexivity.
Qed.

(** X4. A successful answer of the service whose body is not JSON is an
    error, not a degraded document: the handler answers 500 with "Gemini
    fetch failed: " and the engine's message for the body, and never the
    "other" fallback. *)
Theorem analyze_body_not_json h req f tr status t :
  file req = Some f ->
  GOOGLE_API_KEY h <> [] ->
  fetch h (outbound h (toString_base64 (buffer f)) (mimetype f) (originalname f))
  = Replied status t ->
  res_ok status = true ->
  JSON_parse t = None ->
  analyze h req tr
  = (Returned
       (MkResponse 500
          (JObject
             [(js "error",
               JString (js "Gemini fetch failed: " ++ fault_message h (BadJson t)))])),
     tr ++ [Fetched (outbound h (toString_base64 (buffer f)) (mimetype f)
                      (originalname f));
            Logged (js "Gemini fetch failed: " ++ fault_message h (BadJson t))]).
Proof.
  intros Hf Hk Hfetch Hok Hp.
  pose proof (callGemini_with_key h (toString_base64 (buffer f)) (mimetype f)
                (originalname f) tr Hk) as Hc.
  rewrite Hfetch in Hc. cbn [client_outcome] in Hc. rewrite Hok, Hp in Hc.
  rewrite (analyze_thrown h req f tr _ _ Hf Hc), <- app_assoc. reflexivity.
Qed.

Lemma client_outcome_thrown h reply message :
  client_outcome h reply = Thrown message ->
  exists inner, message = fetch_failed ++ inner.
Proof.
  unfold client_outcome. destruct reply as [m|status t].
  - intros [= <-]. eexists; reflexivity.
  - destruct (res_ok status); [|intros [= <-]; eexists; reflexivity].
    destruct (JSON_parse t) as [data|]; [|intros [= <-]; eexists; reflexivity].
    destruct (fst (reply_text h data [])); [discriminate|].
    intros [= <-]. eexists; reflexivity.
Qed.

(** X5. Every error of the client is either "Missing GOOGLE_API_KEY",
    raised before anything is sent, or begins with "Gemini fetch failed: "
    and follows the one request of the call: a rejection, a bad status, a
    body that is not JSON and a reply of the wrong shape all come out
    under that prefix. *)
Theorem callGemini_errors h base64 mime filename tr message tr' :
  callGemini h base64 mime filename tr = (Thrown message, tr') ->
  (message = js "Missing GOOGLE_API_KEY" /\ tr' = tr)
  \/ ((exists inner, message = js "Gemini fetch failed: " ++ inner)
      /\ tr' = tr ++ [Fetched (outbound h base64 mime filename)]).
Proof.
  intros H. destruct (GOOGLE_API_KEY h) as [|k ks] eqn:Ek.
  - rewrite callGemini_without_key in H by assumption.
    injection H as <- <-. now left.
  - rewrite callGemini_with_key in H by congruence.
    injection H as Hc <-. right. split; [|reflexivity].
    now apply client_outcome_thrown in Hc.
Qed.

(** The four ways a run of the handler can go. *)
Lemma analyze_paths h req tr :
  (file req = None
   /\ analyze h req tr
      = (Returned
           (MkResponse 400
              (JObject [(js "error", JString (js "No file uploaded"))])),
         tr ++ []))
  \/ (exists f,
        file req = Some f /\ GOOGLE_API_KEY h = []
        /\ analyze h req tr
           = (Returned
                (MkResponse 500
                   (JObject
                      [(js "error", JString (js "Missing GOOGLE_API_KEY"))])),
              tr ++ [Logged (js "Missing GOOGLE_API_KEY")]))
  \/ (exists f rawText,
        file req = Some f /\ GOOGLE_API_KEY h <> []
        /\ analyze h req tr
           = (Returned (respond rawText),
              tr ++ [Fetched (outbound h (toString_base64 (buffer f))
                                (mimetype f) (originalname f))]))
  \/ (exists f inner,
        file req = Some f /\ GOOGLE_API_KEY h <> []
        /\ analyze h req tr
           = (Returned
                (MkResponse 500
                   (JObject [(js "error", JString (fetch_failed ++ inner))])),
              tr ++ [Fetched (outbound h (toString_base64 (buffer f))
                                (mimetype f) (originalname f));
                     Logged (fetch_failed ++ inner)])).
Proof.
  destruct (file req) as [f|] eqn:Hf.
  - destruct (GOOGLE_API_KEY h) as [|k ks] eqn:Ek.
    + right; left. exists f. repeat split.
      now rewrite (analyze_thrown h req f tr _ tr Hf
                     (callGemini_without_key h _ _ _ tr Ek)).
    + assert (Hk : GOOGLE_API_KEY h <> []) by congruence.
      pose proof (callGemini_with_key h (toString_base64 (buffer f))
                    (mimetype f) (originalname f) tr Hk) as Hc.
      destruct (client_outcome h _) as [rawText|message] eqn:Eo in Hc.
      * right; right; left. exists f, rawText. rewrite <- Ek.
        repeat split; [assumption|]. now apply analyze_reply with (f := f).
      * right; right; right.
        destruct (client_outcome_thrown _ _ _ Eo) as [inner ->].
        exists f, inner. rewrite <- Ek. repeat split; [assumption|].
        rewrite (analyze_thrown h req f tr _ _ Hf Hc), <- app_assoc.
        reflexivity.
  - left. split; [reflexivity|]. rewrite app_nil_r.
    unfold analyze, try_catch. now rewrite Hf.
Qed.

(** X6. A run of the handler sends at most one request, and only with a
    file and a key: a POST to the endpoint of the service with the key in
    the query.  A response with status 200 has sent exactly one. *)
Theorem analyze_requests h req tr :
  exists response l,
    analyze h req tr = (Returned response, tr ++ l)
    /\ (List.length (fetched l) <= 1)%nat
    /\ (forall rq,
          In rq (fetched l) ->
          GOOGLE_API_KEY h <> []
          /\ url rq = endpoint ++ GOOGLE_API_KEY h
          /\ method rq = js "POST"
          /\ content_type rq = js "application/json"
          /\ exists f,
               file req = Some f
               /\ payload rq
                  = JSON_stringify h
                      (request_body (toString_base64 (buffer f)) (mimetype f)
                         (originalname f)))
    /\ (code response = 200 -> List.length (fetched l) = 1%nat).
Proof.
  destruct (analyze_paths h req tr)
    as [[Hf H] | [(f & Hf & Hk & H) | [(f & raw & Hf & Hk & H)
                                      | (f & inner & Hf & Hk & H)]]];
    rewrite H; eexists _, _; (split; [reflexivity|]); cbn [fetched List.length].
  - split; [lia|]. split; [intros rq []|discriminate].
  - split; [lia|]. split; [intros rq []|discriminate].
  - split; [lia|]. split; [|reflexivity].
    intros rq [<- | []]. repeat split; try assumption. eauto.
  - split; [lia|]. split; [|reflexivity].
    intros rq [<- | []]. repeat split; try assumption. eauto.
Qed.

(** X7. The handler always answers, with status 200, 400 or 500: 400
    exactly when the request has no file, and 500 exactly when it has
    written to the error log, once; the error of a 500 response is never
    empty. *)
Theorem analyze_status h req tr :
  exists response l,
    analyze h req tr = (Returned response, tr ++ l)
    /\ (code response = 200 \/ code response = 400 \/ code response = 500)
    /\ (code response = 400 <-> file req = None)
    /\ (code response = 500 <-> logged l <> [])
    /\ (code response = 500 ->
        exists message,
          logged l = [message]
          /\ body response = JObject [(js "error", JString message)]
          /\ message <> []).
Proof.
  destruct (analyze_paths h req tr)
    as [[Hf H] | [(f & Hf & Hk & H) | [(f & raw & Hf & Hk & H)
                                      | (f & inner & Hf & Hk & H)]]];
    rewrite H; eexists _, _; (split; [reflexivity|]);
    cbn [logged code body respond].
  - split; [auto|]. split; [tauto|]. split; [|discriminate].
    split; [discriminate|congruence].
  - split; [auto|]. split; [split; [discriminate|congruence]|].
    split; [split; [discriminate|reflexivity]|].
    intros _. eexists. repeat split. discriminate.
  - split; [auto|]. split; [split; [discriminate|congruence]|].
    split; [|discriminate]. split; [discriminate|congruence].
  - split; [auto|]. split; [split; [discriminate|congruence]|].
    split; [split; [discriminate|reflexivity]|].
    intros _. eexists. repeat split. discriminate.
Qed.

(** ** More on [extractJsonMaybe] *)

Lemma infix_of_refl s : infix_of s s.
Proof. exists [], []. now rewrite app_nil_r. Qed.

Lemma infix_of_trans a b c : infix_of a b -> infix_of b c -> infix_of a c.
Proof.
  intros (p1 & q1 & ->) (p2 & q2 & ->). exists (p2 ++ p1), (q1 ++ q2).
  now rewrite <- !app_assoc.
Qed.

Lemma infix_of_firstn n s : infix_of (firstn n s) s.
Proof. exists [], (skipn n s). cbn [app]. symmetry. apply firstn_skipn. Qed.

Lemma infix_of_skipn n s : infix_of (skipn n s) s.
Proof.
  exists (firstn n s), []. rewrite app_nil_r. symmetry. apply firstn_skipn.
Qed.

(** [trimStart] removes a run of white space from the front, [trimEnd]
    one from the back. *)
Lemma trimStart_split s :
  exists w, s = w ++ trimStart s /\ Forall (fun c => is_space c = true) w.
Proof.
  induction s as [|c s (w & Hs & Hw)]; [exists []; split; [reflexivity|constructor]|].
  cbn [trimStart]. destruct (is_space c) eqn:Hc.
  - exists (c :: w). split; [cbn; now f_equal|now constructor].
  - exists []. split; [reflexivity|constructor].
Qed.

Lemma trimEnd_split s :
  exists w, s = trimEnd s ++ w /\ Forall (fun c => is_space c = true) w.
Proof.
  induction s as [|c s (w & Hs & Hw)]; [exists []; split; [reflexivity|constructor]|].
  cbn [trimEnd]. destruct (trimEnd s) as [|t ts] eqn:E.
  - cbn [app] in Hs. subst w. destruct (is_space c) eqn:Hc.
    + exists (c :: s). split; [reflexivity|now constructor].
    + exists s. split; [reflexivity|assumption].
  - exists w. split; [|assumption]. cbn [app]. now f_equal.
Qed.

Lemma trim_split s :
  exists w1 w2,
    s = w1 ++ trim s ++ w2
    /\ Forall (fun c => is_space c = true) w1
    /\ Forall (fun c => is_space c = true) w2.
Proof.
  destruct (trimStart_split s) as (w1 & H1 & F1).
  destruct (trimEnd_split (trimStart s)) as (w2 & H2 & F2).
  exists w1, w2. unfold trim. now rewrite <- H2.
Qed.

Lemma infix_of_trim s : infix_of (trim s) s.
Proof. destruct (trim_split s) as (w1 & w2 & H & _). now exists w1, w2. Qed.

Lemma infix_of_strip_tag s : infix_of (strip_tag s) s.
Proof.
  unfold strip_tag.
  destruct (strip_prefix true (js "json") s) as [b|] eqn:E;
    [|apply infix_of_refl].
  rewrite (strip_prefix_skipn _ _ _ _ E). apply infix_of_skipn.
Qed.

Lemma first_fence_interior_infix text b :
  first_fence_interior text = Some b -> infix_of b text.
Proof.
  unfold first_fence_interior.
  destruct (find_sub ticks text) as [i|]; [|discriminate].
  destruct (find_sub ticks (strip_tag (skipn (i + 3) text))) as [j|];
    [|discriminate].
  intros [= <-].
  eapply infix_of_trans; [apply infix_of_firstn|].
  eapply infix_of_trans; [apply infix_of_strip_tag|]. apply infix_of_skipn.
Qed.

Lemma brace_candidate_shape text c :
  brace_candidate text = Some c ->
  infix_of c text /\ exists mid, c = lbrace ++ mid ++ rbrace.
Proof.
  unfold brace_candidate.
  destruct (find_sub lbrace text) as [f|] eqn:Ef; [|discriminate].
  destruct (find_last rbrace text) as [l|] eqn:El; [|discriminate].
  destruct (Nat.ltb_spec f l); [|discriminate]. intros [= <-]. split.
  - unfold substring. eapply infix_of_trans;
      [apply infix_of_firstn|apply infix_of_skipn].
  - apply find_sub_first in Ef. destruct Ef as [Ef _].
    apply find_last_rbrace in El. destruct El as [El _].
    unfold occurs_at, substring in *.
    apply starts_with_single in Ef. destruct Ef as [r1 Ef].
    apply starts_with_single in El. destruct El as [r2 El].
    replace (S l - f)%nat with (S (l - f)) by lia.
    rewrite (firstn_succ_snoc _ (l - f) (skipn f text) 125 r2).
    2:{ rewrite skipn_skipn. replace (l - f + f)%nat with l by lia. exact El. }
    rewrite Ef. replace (l - f)%nat with (S (l - f - 1)) by lia.
    exists (firstn (l - f - 1) r1). reflexivity.
Qed.

Lemma extract_candidate_cases text c :
  extractJsonMaybe text = Some c ->
  (exists b, first_fence_interior text = Some b /\ c = trim b)
  \/ (exists mid, c = lbrace ++ mid ++ rbrace).
Proof.
  rewrite extractJsonMaybe_spec. destruct text as [|x text]; [discriminate|].
  destruct (first_fence_interior (x :: text)) as [b|] eqn:Eb.
  - destruct (truthy (trim b)).
    + intros [= <-]. left. eauto.
    + intros H. right. now apply brace_candidate_shape in H.
  - intros H. right. now apply brace_candidate_shape in H.
Qed.

(** X8. Every candidate is either the trimmed interior of the first
    fenced block or a text that opens with an opening brace and closes
    with a closing brace. *)
Theorem extractJsonMaybe_candidates text c :
  extractJsonMaybe text = Some c ->
  (exists b, first_fence_interior text = Some b /\ c = trim b)
  \/ (exists mid, c = lbrace ++ mid ++ rbrace).
Proof. apply extract_candidate_cases. Qed.

(** X9. A candidate is a run of consecutive characters of the text: the
    extractor cuts, it never adds or changes a character. *)
Theorem extractJsonMaybe_infix text c :
  extractJsonMaybe text = Some c -> infix_of c text.
Proof.
  rewrite extractJsonMaybe_spec. destruct text as [|x text]; [discriminate|].
  destruct (first_fence_interior (x :: text)) as [b|] eqn:Eb.
  - destruct (truthy (trim b)).
    + intros [= <-]. eapply infix_of_trans; [apply infix_of_trim|].
      now apply first_fence_interior_infix.
    + intros H. now apply brace_candidate_shape in H.
  - intros H. now apply brace_candidate_shape in H.
Qed.

Lemma trimEnd_snoc_space front x :
  is_space x = true -> trimEnd (front ++ [x]) = trimEnd front.
Proof.
  intros Hx. induction front as [|y front IH]; cbn [app trimEnd].
  - now rewrite Hx.
  - now rewrite IH.
Qed.

(** X10. A candidate has no white space at either end: [trim] leaves it
    as it is, and its first and last characters are not white space. *)
Theorem extractJsonMaybe_trimmed text c :
  extractJsonMaybe text = Some c ->
  trim c = c
  /\ (forall x rest, c = x :: rest -> is_space x = false)
  /\ (forall front x, c = front ++ [x] -> is_space x = false).
Proof.
  intros H.
  assert (Ht : trim c = c).
  { destruct (extract_candidate_cases text c H) as [(b & _ & ->) | (mid & ->)].
    - apply trim_idem.
    - change (lbrace ++ mid ++ rbrace) with (123 :: mid ++ [125]).
      unfold trim. rewrite trimStart_nonspace by reflexivity.
      rewrite app_comm_cons. now apply trimEnd_snoc_nonspace. }
  split; [exact Ht|]. split.
  - intros x rest ->. pose proof (trimStart_head (x :: rest)) as Hh.
    unfold trim in Ht.
    destruct (is_space x) eqn:Hx; [|reflexivity].
    exfalso. pose proof (length_trimEnd (trimStart (x :: rest))) as Hl.
    rewrite Ht in Hl. cbn [trimStart] in Hl. rewrite Hx in Hl.
    destruct (trimStart_split rest) as (w & Hw & _).
    apply (f_equal (@List.length _)) in Hw. rewrite length_app in Hw.
    cbn [List.length] in Hl. lia.
  - intros front x ->. destruct (is_space x) eqn:Hx; [|reflexivity].
    exfalso. unfold trim in Ht.
    destruct (trimStart_split (front ++ [x])) as (w & Hw & _).
    assert (Hlen : (List.length (trimStart (front ++ [x]))
                    <= List.length (front ++ [x]))%nat).
    { rewrite Hw at 2. rewrite length_app. lia. }
    pose proof (length_trimEnd (trimStart (front ++ [x]))) as Hl.
    rewrite Ht in Hl.
    assert (Heq : trimStart (front ++ [x]) = front ++ [x]).
    { rewrite Hw at 2.
      destruct w as [|y w]; [reflexivity|]. exfalso.
      apply (f_equal (@List.length _)) in Hw.
      rewrite !length_app in Hw. rewrite length_app in Hl.
      cbn [List.length] in Hw, Hl. lia. }
    rewrite Heq, trimEnd_snoc_space in Ht by assumption.
    pose proof (length_trimEnd front) as Hf. rewrite Ht in Hf.
    rewrite length_app in Hf. cbn [List.length] in Hf. lia.
Qed.

Lemma skipn_app_exact (A : Type) (a b : list A) :
  skipn (List.length a) (a ++ b) = b.
Proof. induction a as [|x a IH]; [reflexivity|exact IH]. Qed.

Lemma firstn_app_exact (A : Type) (a b : list A) :
  firstn (List.length a) (a ++ b) = a.
Proof. induction a as [|x a IH]; [reflexivity|]. cbn. now rewrite IH. Qed.

Lemma find_sub_after_spaces c w rest :
  is_space c = false ->
  Forall (fun x => is_space x = true) w ->
  find_sub [c] (w ++ c :: rest) = Some (List.length w).
Proof.
  intros Hc Hw. induction Hw as [|x w Hx _ IH].
  - apply find_sub_here. cbn [app starts_with]. now rewrite N.eqb_refl.
  - cbn [app]. rewrite find_sub_cons_not, IH; [reflexivity|].
    cbn [starts_with]. destruct (N.eqb_spec c x); [congruence|reflexivity].
Qed.

Lemma find_last_spaces c w :
  is_space c = false ->
  Forall (fun x => is_space x = true) w ->
  find_last [c] w = None.
Proof.
  intros Hc Hw. induction Hw as [|x w Hx _ IH]; [reflexivity|].
  cbn [find_last]. rewrite IH. cbn [starts_with].
  destruct (N.eqb_spec c x); [congruence|reflexivity].
Qed.

Lemma find_last_before_spaces c pre w :
  is_space c = false ->
  Forall (fun x => is_space x = true) w ->
  find_last [c] (pre ++ c :: w) = Some (List.length pre).
Proof.
  intros Hc Hw. induction pre as [|x pre IH].
  - cbn [app find_last]. rewrite (find_last_spaces c w Hc Hw).
    cbn [starts_with]. now rewrite N.eqb_refl.
  - cbn [app find_last]. now rewrite IH.
Qed.

(** X11. A text with no fenced block, or a blank one, that between its
    leading and trailing white space opens with a brace and closes with
    one is its own candidate, trimmed: the handler parses exactly the
    trimmed reply, and answers with its value or with the fallback. *)
Theorem extractJsonMaybe_braced_text text mid :
  (forall b, first_fence_interior text = Some b -> trim b = []) ->
  trim text = lbrace ++ mid ++ rbrace ->
  extractJsonMaybe text = Some (trim text)
  /\ respond text
     = success match JSON_parse (trim text) with
               | Some v => v
               | None => fallback text
               end.
Proof.
  intros Hfence Htrim.
  assert (He : extractJsonMaybe text = Some (trim text)).
  { rewrite extractJsonMaybe_spec.
    destruct (trim_split text) as (w1 & w2 & Htext & Hw1 & Hw2).
    rewrite Htrim in Htext |- *.
    change (lbrace ++ mid ++ rbrace) with (123 :: mid ++ [125]) in *.
    destruct text as [|x text]; [destruct w1; discriminate|].
    assert (H1 : x :: text = w1 ++ 123 :: (mid ++ 125 :: w2))
      by (rewrite Htext; cbn [app]; now rewrite <- !app_assoc).
    assert (H2 : x :: text = (w1 ++ 123 :: mid) ++ 125 :: w2)
      by (rewrite H1; now rewrite <- app_assoc).
    assert (Ef : find_sub lbrace (x :: text) = Some (List.length w1))
      by (rewrite H1; now apply (find_sub_after_spaces 123)).
    assert (El : find_last rbrace (x :: text)
                 = Some (List.length (w1 ++ 123 :: mid)))
      by (rewrite H2; now apply (find_last_before_spaces 125)).
    assert (Hb : brace_candidate (x :: text) = Some (123 :: mid ++ [125])).
    { unfold brace_candidate. rewrite Ef, El, length_app. cbn [List.length].
      destruct (Nat.ltb_spec (List.length w1)
                  (List.length w1 + S (List.length mid))); [|lia].
      f_equal. unfold substring. rewrite Htext, skipn_app_exact.
      replace (S (List.length w1 + S (List.length mid)) - List.length w1)%nat
        with (List.length (123 :: mid ++ [125]))
        by (cbn [List.length]; rewrite length_app; cbn [List.length]; lia).
      apply firstn_app_exact. }
    rewrite Hb.
    destruct (first_fence_interior (x :: text)) as [b|] eqn:Eb; [|reflexivity].
    now rewrite (Hfence b eq_refl). }
  split; [exact He|].
  unfold respond. rewrite or_else_parse_input. unfold parse_input. rewrite He.
  destruct (JSON_parse (trim text)); reflexivity.
Qed.

Lemma find_sub_ticks_after (pre rest : jsstring) :
  ~ In 96 pre -> find_sub ticks (pre ++ ticks ++ rest) = Some (List.length pre).
Proof.
  intros Hpre. induction pre as [|x pre IH].
  - now apply find_sub_here.
  - cbn [app]. rewrite find_sub_cons_not, IH.
    + reflexivity.
    + intros Hin. apply Hpre. now right.
    + apply Bool.not_true_is_false. intros E.
      apply starts_with_ticks_head in E. subst x. apply Hpre. now left.
Qed.

Lemma strip_prefix_app i pat a rest :
  strip_prefix i pat a = Some [] -> strip_prefix i pat (a ++ rest) = Some rest.
Proof.
  revert a. induction pat as [|p pat IH]; intros a H.
  - cbn in H. injection H as ->. reflexivity.
  - destruct a as [|c a]; [discriminate|]. cbn [strip_prefix app] in *.
    destruct (chr_eq i p c); [now apply IH|discriminate].
Qed.

Lemma strip_prefix_not_before_tick pat body rest :
  (forall p, In p pat -> canonicalize p <> 96) ->
  strip_prefix true pat body = None ->
  strip_prefix true pat (body ++ 96 :: rest) = None.
Proof.
  intros Hp. revert body. induction pat as [|p pat IH]; intros body H;
    [discriminate|].
  destruct body as [|c body]; cbn [app strip_prefix] in *.
  - unfold chr_eq. destruct (N.eqb_spec (canonicalize p) (canonicalize 96));
      [|reflexivity].
    exfalso. apply (Hp p); [now left|assumption].
  - destruct (chr_eq true p c); [|reflexivity]. apply IH; [|assumption].
    intros q Hq. apply Hp. now right.
Qed.

(** X12. A fenced block, tagged [json] in any case or not tagged, with no
    backquote before it nor inside it and a non-blank interior is
    extracted whatever surrounds it, braces included: the candidate is
    its trimmed interior, and when that parses the handler answers with
    its value. *)
Theorem extractJsonMaybe_fenced_block (pre tag body post : jsstring) :
  ~ In 96 pre ->
  ~ In 96 body ->
  (tag = [] /\ strip_prefix true (js "json") body = None)
  \/ strip_prefix true (js "json") tag = Some [] ->
  trim body <> [] ->
  extractJsonMaybe (pre ++ ticks ++ tag ++ body ++ ticks ++ post)
  = Some (trim body)
  /\ (forall v,
        JSON_parse (trim body) = Some v ->
        respond (pre ++ ticks ++ tag ++ body ++ ticks ++ post) = success v).
Proof.
  intros Hpre Hbody Htag Hne.
  assert (Hf : first_fence_interior (pre ++ ticks ++ tag ++ body ++ ticks ++ post)
               = Some body).
  { unfold first_fence_interior. rewrite find_sub_ticks_after by assumption.
    replace (skipn (List.length pre + 3)
               (pre ++ ticks ++ tag ++ body ++ ticks ++ post))
      with (tag ++ body ++ ticks ++ post).
    2:{ rewrite Nat.add_comm, <- skipn_skipn, skipn_app_exact. reflexivity. }
    assert (Hs : strip_tag (tag ++ body ++ ticks ++ post)
                 = body ++ ticks ++ post).
    { unfold strip_tag. destruct Htag as [[-> Hnone] | Hsome].
      - cbn [app]. rewrite ticks_eq. cbn [app].
        rewrite strip_prefix_not_before_tick; [reflexivity| |assumption].
        intros p Hp. cbn in Hp.
        destruct Hp as [<-|[<-|[<-|[<-|[]]]]]; discriminate.
      - now rewrite (strip_prefix_app _ _ _ _ Hsome). }
    rewrite Hs, find_sub_ticks_after by assumption.
    now rewrite firstn_app_exact. }
  assert (He : extractJsonMaybe (pre ++ ticks ++ tag ++ body ++ ticks ++ post)
               = Some (trim body)).
  { rewrite extractJsonMaybe_spec, Hf.
    destruct (pre ++ ticks ++ tag ++ body ++ ticks ++ post) eqn:E.
    - destruct pre; discriminate.
    - destruct (trim body); [congruence|reflexivity]. }
  split; [exact He|].
  intros v Hv. apply respond_parsed. unfold parse_input. now rewrite He.
Qed.

(** ** More on the client *)

Lemma join_with_nonempty sep l :
  Exists (fun s : jsstring => s <> []) l -> join_with sep l <> [].
Proof.
  induction l as [|a rest IH]; intros H; [inversion H|].
  cbn [join_with]. destruct rest as [|b rest'].
  - inversion H as [? ? Ha|? ? Hr]; [exact Ha|inversion Hr].
  - inversion H as [? ? Ha|? ? Hr]; subst.
    + destruct a; [congruence|discriminate].
    + intros E. apply app_eq_nil in E. destruct E as [_ E].
      apply app_eq_nil in E. destruct E as [_ E]. now apply IH.
Qed.

Lemma has_text_part_ok parts : Forall has_text parts -> Forall part_ok parts.
Proof.
  intros H. induction H as [|p parts (props & s & -> & Hs) _ IH]; constructor;
    [|assumption].
  cbn [part_ok]. now rewrite Hs.
Qed.

Lemma has_text_segments parts :
  Forall has_text parts -> List.map part_segment parts = text_segments parts.
Proof.
  intros H. apply part_segments_all_text.
  induction H as [|p parts (props & s & -> & Hs) _ IH]; constructor;
    [|assumption].
  exists s. exact Hs.
Qed.

(** X13. When every part of the first candidate carries a string as its
    text and some text is not empty, the raw text the client returns is
    the texts of the parts joined by line feeds. *)
Theorem callGemini_text_parts h base64 mime filename tr status t data parts :
  GOOGLE_API_KEY h <> [] ->
  fetch h (outbound h base64 mime filename) = Replied status t ->
  res_ok status = true ->
  JSON_parse t = Some data ->
  candidate_parts data = Some parts ->
  Forall has_text parts ->
  Exists (fun s => s <> []) (text_segments parts) ->
  callGemini h base64 mime filename tr
  = (Returned (join_with [10] (text_segments parts)),
     tr ++ [Fetched (outbound h base64 mime filename)]).
Proof.
  intros Hk Hfetch Hok Hparse Hparts Htext Hsome.
  rewrite callGemini_with_key by assumption.
  rewrite Hfetch. cbn [client_outcome]. rewrite Hok, Hparse.
  destruct (reply_text_parts h data parts [] (JSON_stringify h data) Hparts
              (has_text_part_ok parts Htext)) as (joined & Hr & Ho).
  rewrite Hr. cbn [fst]. rewrite Ho, has_text_segments by assumption.
  apply join_with_nonempty with (sep := [10]) in Hsome.
  destruct (join_with [10] (text_segments parts)); [congruence|reflexivity].
Qed.

Lemma reply_text_by_parts h data :
  reply_text h data
  = match reply_parts data with
    | None | Some JNull => ret None
    | Some (JArray items) =>
        match all_some (List.map part_text items) with
        | None => throw (fault_message h NullProperty)
        | Some texts =>
            match Array_join h texts [10] with
            | Some s => ret (Some s)
            | None => throw (fault_message h NotPrimitive)
            end
        end
    | Some _ => throw (fault_message h NotCallable)
    end.
Proof. reflexivity. Qed.

Lemma all_some_null_part items :
  In JNull items -> all_some (List.map part_text items) = None.
Proof.
  induction items as [|p items IH]; intros H; [destruct H|].
  cbn [List.map all_some]. destruct H as [-> | H]; [reflexivity|].
  rewrite (IH H). destruct (part_text p); reflexivity.
Qed.

(** X14. The optional chain guards against missing links only: a
    successful reply whose parts are there but are not an array, or are
    an array with a null element, fails the request with status 500 and a
    "Gemini fetch failed: " error; it is not turned into a document. *)
Theorem analyze_reply_wrong_shape h req f tr status t data p :
  file req = Some f ->
  GOOGLE_API_KEY h <> [] ->
  fetch h (outbound h (toString_base64 (buffer f)) (mimetype f) (originalname f))
  = Replied status t ->
  res_ok status = true ->
  JSON_parse t = Some data ->
  reply_parts data = Some p ->
  (p <> JNull /\ (forall items, p <> JArray items)
   \/ exists items, p = JArray items /\ In JNull items) ->
  exists fault_kind,
    (fault_kind = NotCallable \/ fault_kind = NullProperty)
    /\ analyze h req tr
       = (Returned
            (MkResponse 500
               (JObject
                  [(js "error",
                    JString (js "Gemini fetch failed: "
                             ++ fault_message h fault_kind))])),
          tr ++ [Fetched (outbound h (toString_base64 (buffer f)) (mimetype f)
                           (originalname f));
                 Logged (js "Gemini fetch failed: "
                         ++ fault_message h fault_kind)]).
Proof.
  intros Hf Hk Hfetch Hok Hparse Hp Hshape.
  pose proof (callGemini_with_key h (toString_base64 (buffer f)) (mimetype f)
                (originalname f) tr Hk) as Hc.
  rewrite Hfetch in Hc. cbn [client_outcome] in Hc.
  rewrite Hok, Hparse, reply_text_by_parts, Hp in Hc.
  destruct Hshape as [[Hnull Harr] | (items & -> & Hin)].
  - exists NotCallable. split; [now left|].
    destruct p as [| | | |items|]; try congruence;
      try (exfalso; now apply (Harr items));
      cbn [fst throw] in Hc;
      rewrite (analyze_thrown h req f tr _ _ Hf Hc), <- app_assoc;
      reflexivity.
  - exists NullProperty. split; [now right|].
    rewrite (all_some_null_part items Hin) in Hc. cbn [fst throw] in Hc.
    rewrite (analyze_thrown h req f tr _ _ Hf Hc), <- app_assoc. reflexivity.
Qed.

(** X15. The fence pattern matches exactly when a second run of three
    backquotes begins three or more characters after the first one: the
    optional tag, the white space and the laziness of the capture decide
    what is captured, never whether there is a match. *)
Theorem fence_match_exists text :
  String_match text true fence_re = None
  <-> (forall i,
         find_sub ticks text = Some i ->
         find_sub ticks (skipn (i + 3) text) = None).
Proof.
  pose proof (match_from_capture text 0) as H. fold (String_match text true fence_re) in H.
  assert (Hm : String_match text true fence_re = None
               <-> first_fence_interior text = None).
  { destruct (String_match text true fence_re), (first_fence_interior text);
      cbn [option_map] in H; split; intros; congruence. }
  rewrite Hm. unfold first_fence_interior.
  destruct (find_sub ticks text) as [i|]; [|split; [discriminate|reflexivity]].
  pose proof (find_sub_strip_tag (skipn (i + 3) text)) as Ht.
  destruct (find_sub ticks (strip_tag (skipn (i + 3) text))) as [j|]; split.
  - discriminate.
  - intros Hn. specialize (Hn i eq_refl). apply (proj2 Ht) in Hn. discriminate.
  - intros _ k [= <-]. now apply Ht.
  - reflexivity.
Qed.

Lemma starts_with_app pat s post :
  starts_with pat s = true -> starts_with pat (s ++ post) = true.
Proof.
  revert s. induction pat as [|p pat IH]; intros s H; [reflexivity|].
  destruct s as [|c s]; [discriminate|]. cbn [app]. rewrite starts_with_cons in *.
  apply andb_prop in H. destruct H as [-> H]. now rewrite (IH s H).
Qed.

Lemma starts_with_firstn pat n s :
  starts_with pat (firstn n s) = true -> starts_with pat s = true.
Proof.
  intros H. rewrite <- (firstn_skipn n s). now apply starts_with_app.
Qed.

Lemma find_sub_firstn_none p pat s j :
  find_sub (p :: pat) s = Some j -> find_sub (p :: pat) (firstn j s) = None.
Proof.
  revert j. induction s as [|c s IH]; intros j; [discriminate|].
  destruct (starts_with (p :: pat) (c :: s)) eqn:E.
  - rewrite find_sub_here by assumption. now intros [= <-].
  - rewrite find_sub_cons_not by assumption.
    destruct (find_sub (p :: pat) s) as [k|] eqn:Ek; [|discriminate].
    intros [= <-]. cbn [firstn]. rewrite find_sub_cons_not, (IH k eq_refl).
    + reflexivity.
    + apply Bool.not_true_is_false. intros Hs.
      apply (starts_with_firstn _ (S k) (c :: s)) in Hs. congruence.
Qed.

Lemma find_sub_prefix_none pat s post :
  find_sub pat (s ++ post) = None -> find_sub pat s = None.
Proof.
  induction s as [|c s IH].
  - cbn [app find_sub]. destruct (starts_with pat []) eqn:E; [|reflexivity].
    apply (starts_with_app _ _ post) in E. cbn [app] in E.
    intros H. destruct post; cbn [find_sub] in H; rewrite E in H; discriminate.
  - cbn [app find_sub]. destruct (starts_with pat (c :: s)) eqn:E.
    + apply (starts_with_app _ _ post) in E. cbn [app] in E. now rewrite E.
    + destruct (starts_with pat (c :: s ++ post)); [discriminate|].
      destruct (find_sub pat (s ++ post)); [discriminate|].
      intros _. now rewrite IH.
Qed.

Lemma find_sub_infix_none pat c text :
  infix_of c text -> find_sub pat text = None -> find_sub pat c = None.
Proof.
  intros (pre & post & ->) H.
  apply (find_sub_skipn _ _ (List.length pre)) in H.
  rewrite skipn_app_exact in H. now apply find_sub_prefix_none in H.
Qed.

(** X16. What the fence pattern captures holds no run of three
    backquotes: the lazy capture stops at the first closing fence, so a
    candidate taken from a fenced block never runs over into a later
    block. *)
Theorem fence_capture_has_no_fence text m g :
  String_match text true fence_re = Some m ->
  m_1 m = Some g ->
  find_sub ticks g = None.
Proof.
  intros Hm Hg. pose proof (match_from_capture text 0) as H.
  fold (String_match text true fence_re) in H. rewrite Hm in H.
  cbn [option_map] in H. rewrite Hg in H.
  unfold first_fence_interior in H.
  destruct (find_sub ticks text) as [i|]; [|discriminate].
  destruct (find_sub ticks (strip_tag (skipn (i + 3) text))) as [j|] eqn:Ej;
    [|discriminate].
  cbn [option_map] in H. injection H as ->.
  apply (find_sub_infix_none _ _ _ (infix_of_trim _)).
  rewrite ticks_eq in *. now apply find_sub_firstn_none.
Qed.

(** ** Instances of the further properties *)

Lemma analyze_missing_key_witness :
  file a_request = Some a_file
  /\ GOOGLE_API_KEY keyless_host = key_of_env None
  /\ ((None : option jsstring) = None \/ None = Some ([] : jsstring))
  /\ analyze keyless_host a_request []
     = (Returned
          (MkResponse 500
             (JObject [(js "error", JString (js "Missing GOOGLE_API_KEY"))])),
        [] ++ [Logged (js "Missing GOOGLE_API_KEY")]).
Proof.
  split; [reflexivity|]. split; [reflexivity|]. split; [now left|].
  apply (analyze_missing_key keyless_host a_request a_file [] None);
    [reflexivity|reflexivity|now left].
Defined.

Lemma analyze_upstream_status_witness :
  file a_request = Some a_file
  /\ GOOGLE_API_KEY busy_host <> []
  /\ fetch busy_host (a_outbound busy_host) = Replied 503 (js "busy")
  /\ res_ok 503 = false
  /\ analyze busy_host a_request []
     = (Returned
          (MkResponse 500
             (JObject
                [(js "error",
                  JString
                    (js "Gemini fetch failed: Gemini HTTP " ++ decimal 503
                     ++ js ": " ++ js "busy"))])),
        [] ++ [Fetched (a_outbound busy_host);
               Logged (js "Gemini fetch failed: Gemini HTTP " ++ decimal 503
                       ++ js ": " ++ js "busy")]).
Proof.
  assert (Hk : GOOGLE_API_KEY busy_host <> []) by discriminate.
  split; [reflexivity|]. split; [exact Hk|]. split; [reflexivity|].
  split; [reflexivity|].
  apply (analyze_upstream_status busy_host a_request a_file [] 503 (js "busy"));
    solve [reflexivity | exact Hk].
Defined.

Lemma analyze_network_failure_witness :
  file a_request = Some a_file
  /\ GOOGLE_API_KEY rejecting_host <> []
  /\ fetch rejecting_host (a_outbound rejecting_host)
     = Rejected (js "This operation was aborted")
  /\ analyze rejecting_host a_request []
     = (Returned
          (MkResponse 500
             (JObject
                [(js "error",
                  JString (js "Gemini fetch failed: "
                           ++ js "This operation was aborted"))])),
        [] ++ [Fetched (a_outbound rejecting_host);
               Logged (js "Gemini fetch failed: "
                       ++ js "This operation was aborted")]).
Proof.
  assert (Hk : GOOGLE_API_KEY rejecting_host <> []) by discriminate.
  split; [reflexivity|]. split; [exact Hk|]. split; [reflexivity|].
  apply (analyze_network_failure rejecting_host a_request a_file []
           (js "This operation was aborted"));
    solve [reflexivity | exact Hk].
Defined.

Lemma analyze_body_not_json_witness :
  file a_request = Some a_file
  /\ GOOGLE_API_KEY html_host <> []
  /\ fetch html_host (a_outbound html_host) = Replied 200 (js "<html>")
  /\ res_ok 200 = true
  /\ JSON_parse (js "<html>") = None
  /\ analyze html_host a_request []
     = (Returned
          (MkResponse 500
             (JObject
                [(js "error",
                  JString (js "Gemini fetch failed: "
                           ++ fault_message html_host (BadJson (js "<html>"))))])),
        [] ++ [Fetched (a_outbound html_host);
               Logged (js "Gemini fetch failed: "
                       ++ fault_message html_host (BadJson (js "<html>")))]).
Proof.
  assert (Hk : GOOGLE_API_KEY html_host <> []) by discriminate.
  split; [reflexivity|]. split; [exact Hk|]. split; [reflexivity|].
  split; [reflexivity|]. split; [reflexivity|].
  apply (analyze_body_not_json html_host a_request a_file [] 200 (js "<html>"));
    solve [reflexivity | exact Hk].
Defined.

Lemma callGemini_errors_witness :
  callGemini busy_host a_base64 (js "image/png") (js "r.png") []
  = (Thrown (js "Gemini fetch failed: Gemini HTTP 503: busy"),
     [Fetched (outbound busy_host a_base64 (js "image/png") (js "r.png"))])
  /\ ((js "Gemini fetch failed: Gemini HTTP 503: busy" = js "Missing GOOGLE_API_KEY"
       /\ [Fetched (outbound busy_host a_base64 (js "image/png") (js "r.png"))]
          = [])
      \/ ((exists inner,
             js "Gemini fetch failed: Gemini HTTP 503: busy"
             = js "Gemini fetch failed: " ++ inner)
          /\ [Fetched (outbound busy_host a_base64 (js "image/png") (js "r.png"))]
             = [] ++ [Fetched (outbound busy_host a_base64 (js "image/png")
                                 (js "r.png"))])).
Proof.
  split; [reflexivity|].
  apply (callGemini_errors busy_host a_base64 (js "image/png") (js "r.png") []).
  reflexivity.
Defined.

Lemma extractJsonMaybe_candidates_witness :
  extractJsonMaybe braces_example = Some (jsq "{'a':1}")
  /\ ((exists b,
         first_fence_interior braces_example = Some b /\ jsq "{'a':1}" = trim b)
      \/ (exists mid, jsq "{'a':1}" = lbrace ++ mid ++ rbrace)).
Proof.
  split; [reflexivity|].
  apply (extractJsonMaybe_candidates braces_example). reflexivity.
Defined.

Lemma extractJsonMaybe_infix_witness :
  extractJsonMaybe braces_example = Some (jsq "{'a':1}")
  /\ infix_of (jsq "{'a':1}") braces_example.
Proof.
  split; [reflexivity|].
  apply (extractJsonMaybe_infix braces_example). reflexivity.
Defined.

Lemma extractJsonMaybe_trimmed_witness :
  extractJsonMaybe fenced_example = Some (jsq "{'a':1}")
  /\ trim (jsq "{'a':1}") = jsq "{'a':1}"
  /\ (forall x rest, jsq "{'a':1}" = x :: rest -> is_space x = false)
  /\ (forall front x, jsq "{'a':1}" = front ++ [x] -> is_space x = false).
Proof.
  split; [reflexivity|].
  apply (extractJsonMaybe_trimmed fenced_example). reflexivity.
Defined.

Lemma extractJsonMaybe_braced_text_witness :
  (forall b, first_fence_interior padded_object = Some b -> trim b = [])
  /\ trim padded_object = lbrace ++ jsq "'a': [1, 2]" ++ rbrace
  /\ extractJsonMaybe padded_object = Some (trim padded_object)
  /\ respond padded_object
     = success match JSON_parse (trim padded_object) with
               | Some v => v
               | None => fallback padded_object
               end.
Proof.
  assert (H1 : forall b, first_fence_interior padded_object = Some b -> trim b = [])
    by (intros b Hb; discriminate Hb).
  split; [exact H1|]. split; [reflexivity|].
  apply (extractJsonMaybe_braced_text padded_object (jsq "'a': [1, 2]") H1).
  reflexivity.
Defined.

Lemma extractJsonMaybe_fenced_block_witness :
  ~ In 96 (jsq "{x} ")
  /\ ~ In 96 (jsq "
{'a':1}
")
  /\ ((js "json" = [] /\ strip_prefix true (js "json") (jsq "
{'a':1}
") = None)
      \/ strip_prefix true (js "json") (js "json") = Some [])
  /\ trim (jsq "
{'a':1}
") <> []
  /\ extractJsonMaybe (jsq "{x} " ++ ticks ++ js "json" ++ jsq "
{'a':1}
" ++ ticks ++ js " {y}") = Some (trim (jsq "
{'a':1}
"))
  /\ (forall v,
        JSON_parse (trim (jsq "
{'a':1}
")) = Some v ->
        respond (jsq "{x} " ++ ticks ++ js "json" ++ jsq "
{'a':1}
" ++ ticks ++ js " {y}") = success v).
Proof.
  assert (H1 : ~ In 96 (jsq "{x} ")).
  { cbn. intros H. repeat (destruct H as [H|H]; [discriminate H|]). exact H. }
  assert (H2 : ~ In 96 (jsq "
{'a':1}
")).
  { cbn. intros H. repeat (destruct H as [H|H]; [discriminate H|]). exact H. }
  assert (H3 : (js "json" = [] /\ strip_prefix true (js "json") (jsq "
{'a':1}
") = None)
      \/ strip_prefix true (js "json") (js "json") = Some [])
    by (right; reflexivity).
  assert (H4 : trim (jsq "
{'a':1}
") <> []) by discriminate.
  split; [exact H1|]. split; [exact H2|]. split; [exact H3|]. split; [exact H4|].
  exact (extractJsonMaybe_fenced_block (jsq "{x} ") (js "json") (jsq "
{'a':1}
") (js " {y}") H1 H2 H3 H4).
Defined.

Lemma callGemini_text_parts_witness :
  GOOGLE_API_KEY two_parts_host <> []
  /\ fetch two_parts_host
       (outbound two_parts_host a_base64 (js "image/png") (js "r.png"))
     = Replied 200 two_parts_body
  /\ res_ok 200 = true
  /\ JSON_parse two_parts_body = Some two_parts_data
  /\ candidate_parts two_parts_data = Some two_parts
  /\ Forall has_text two_parts
  /\ Exists (fun s => s <> []) (text_segments two_parts)
  /\ callGemini two_parts_host a_base64 (js "image/png") (js "r.png") []
     = (Returned (join_with [10] (text_segments two_parts)),
        [] ++ [Fetched (outbound two_parts_host a_base64 (js "image/png")
                          (js "r.png"))]).
Proof.
  assert (Hk : GOOGLE_API_KEY two_parts_host <> []) by discriminate.
  assert (Ht : Forall has_text two_parts).
  { repeat constructor; eexists _, _; split; reflexivity. }
  assert (He : Exists (fun s => s <> []) (text_segments two_parts))
    by (left; discriminate).
  split; [exact Hk|]. split; [reflexivity|]. split; [reflexivity|].
  split; [reflexivity|]. split; [reflexivity|]. split; [exact Ht|].
  split; [exact He|].
  apply (callGemini_text_parts two_parts_host a_base64 (js "image/png")
           (js "r.png") [] 200 two_parts_body two_parts_data two_parts Hk);
    solve [reflexivity | exact Ht | exact He].
Defined.

Lemma analyze_reply_wrong_shape_witness :
  file a_request = Some a_file
  /\ GOOGLE_API_KEY string_parts_host <> []
  /\ fetch string_parts_host (a_outbound string_parts_host)
     = Replied 200 string_parts_body
  /\ res_ok 200 = true
  /\ JSON_parse string_parts_body = Some string_parts_data
  /\ reply_parts string_parts_data = Some (JString (js "oops"))
  /\ (JString (js "oops") <> JNull
      /\ (forall items, JString (js "oops") <> JArray items)
      \/ exists items, JString (js "oops") = JArray items /\ In JNull items)
  /\ exists fault_kind,
       (fault_kind = NotCallable \/ fault_kind = NullProperty)
       /\ analyze string_parts_host a_request []
          = (Returned
               (MkResponse 500
                  (JObject
                     [(js "error",
                       JString (js "Gemini fetch failed: "
                                ++ fault_message string_parts_host fault_kind))])),
             [] ++ [Fetched (outbound string_parts_host
                               (toString_base64 (buffer a_file))
                               (mimetype a_file) (originalname a_file));
                    Logged (js "Gemini fetch failed: "
                            ++ fault_message string_parts_host fault_kind)]).
Proof.
  assert (Hk : GOOGLE_API_KEY string_parts_host <> []) by discriminate.
  assert (Hs : JString (js "oops") <> JNull
               /\ (forall items, JString (js "oops") <> JArray items)
               \/ exists items, JString (js "oops") = JArray items /\ In JNull items)
    by (left; split; [discriminate|intros items; discriminate]).
  split; [reflexivity|]. split; [exact Hk|]. split; [reflexivity|].
  split; [reflexivity|]. split; [reflexivity|]. split; [reflexivity|].
  split; [exact Hs|].
  apply (analyze_reply_wrong_shape string_parts_host a_request a_file [] 200
           string_parts_body string_parts_data (JString (js "oops")));
    solve [reflexivity | exact Hk | exact Hs].
Defined.

Lemma fence_capture_has_no_fence_witness :
  String_match fenced_example true fence_re = Some fenced_match
  /\ m_1 fenced_match = Some (jsq "{'a':1}")
  /\ find_sub ticks (jsq "{'a':1}") = None.
Proof.
  split; [reflexivity|]. split; [reflexivity|].
  apply (fence_capture_has_no_fence fenced_example fenced_match); reflexivity.
Defined.

(** ** The revised statements *)

(** C9 as stated fails: [```a``` ``` ``` {x}] contains a fenced block
    whose interior is one space, behind a first block with interior [a];
    [extractJsonMaybe] returns [a], the capture of the first block, and
    not [{x}], which brace scanning over the whole text finds. *)
Lemma extractJsonMaybe_blank_fence_counterexample :
  later_blank_example = js "```a``` " ++ ticks ++ js " " ++ ticks ++ js " {x}"
  /\ trim (js " ") = []
  /\ first_fence_interior later_blank_example = Some (js "a")
  /\ extractJsonMaybe later_blank_example = Some (js "a")
  /\ brace_candidate later_blank_example = Some (js "{x}")
  /\ extractJsonMaybe later_blank_example <> brace_candidate later_blank_example.
Proof.
  split; [reflexivity|]. split; [reflexivity|]. split; [reflexivity|].
  split; [reflexivity|]. split; [reflexivity|]. discriminate.
Qed.

(** C7, amended. For every successful response of the service: when the
    parts of the first candidate's content
    ([data?.candidates?.[0]?.content?.parts]) are missing, a link of that
    chain being undefined or null, the raw text the client returns is
    [JSON.stringify] of the parsed response; when they are an array of
    objects with a string text or none, it is the texts of all the parts
    joined by line feeds, a part without text counting as an empty text,
    unless that string is empty, and then it is [JSON.stringify] of the
    parsed response.  One request has been sent. *)
Theorem callGemini_reply_text h base64 mime filename tr status t data :
  GOOGLE_API_KEY h <> [] ->
  fetch h (outbound h base64 mime filename) = Replied status t ->
  res_ok status = true ->
  JSON_parse t = Some data ->
  (reply_parts data = None \/ reply_parts data = Some JNull ->
   callGemini h base64 mime filename tr
   = (Returned (JSON_stringify h data),
      tr ++ [Fetched (outbound h base64 mime filename)]))
  /\ (forall parts,
        reply_parts data = Some (JArray parts) ->
        Forall part_ok parts ->
        callGemini h base64 mime filename tr
        = (Returned
             (if truthy (join_with [10] (List.map part_segment parts))
              then join_with [10] (List.map part_segment parts)
              else JSON_stringify h data),
           tr ++ [Fetched (outbound h base64 mime filename)])).
Proof.
  intros Hk Hfetch Hok Hparse.
  rewrite callGemini_with_key by assumption.
  rewrite Hfetch. cbn [client_outcome].
  rewrite Hok, Hparse, reply_text_by_parts. split.
  - intros [-> | ->]; reflexivity.
  - intros parts -> Hshape.
    destruct (join_parts h parts Hshape) as [H1 H2]. rewrite H1, H2.
    cbn [fst ret or_else].
    destruct (join_with [10] (List.map part_segment parts)); reflexivity.
Qed.

Lemma callGemini_reply_text_witness :
  (GOOGLE_API_KEY gap_host <> []
   /\ fetch gap_host (outbound gap_host a_base64 (js "image/png") (js "r.png"))
      = Replied 200 gap_body
   /\ res_ok 200 = true
   /\ JSON_parse gap_body = Some gap_data
   /\ reply_parts gap_data = Some (JArray gap_parts)
   /\ Forall part_ok gap_parts
   /\ callGemini gap_host a_base64 (js "image/png") (js "r.png") []
      = (Returned
           (if truthy (join_with [10] (List.map part_segment gap_parts))
            then join_with [10] (List.map part_segment gap_parts)
            else JSON_stringify gap_host gap_data),
         [] ++ [Fetched (outbound gap_host a_base64 (js "image/png")
                           (js "r.png"))]))
  /\ (GOOGLE_API_KEY null_host <> []
      /\ fetch null_host
           (outbound null_host a_base64 (js "image/png") (js "r.png"))
         = Replied 200 (js "null")
      /\ res_ok 200 = true
      /\ JSON_parse (js "null") = Some JNull
      /\ (reply_parts JNull = None \/ reply_parts JNull = Some JNull)
      /\ callGemini null_host a_base64 (js "image/png") (js "r.png") []
         = (Returned (JSON_stringify null_host JNull),
            [] ++ [Fetched (outbound null_host a_base64 (js "image/png")
                              (js "r.png"))])).
Proof.
  assert (Hk : GOOGLE_API_KEY gap_host <> []) by discriminate.
  assert (Hs : Forall part_ok gap_parts) by (repeat constructor).
  assert (Hn : GOOGLE_API_KEY null_host <> []) by discriminate.
  assert (Hp : reply_parts JNull = None \/ reply_parts JNull = Some JNull)
    by (left; reflexivity).
  split.
  - split; [exact Hk|]. split; [reflexivity|]. split; [reflexivity|].
    split; [reflexivity|]. split; [reflexivity|]. split; [exact Hs|].
    exact (proj2
             (callGemini_reply_text gap_host a_base64 (js "image/png")
                (js "r.png") [] 200 gap_body gap_data Hk eq_refl eq_refl eq_refl)
             gap_parts eq_refl Hs).
  - split; [exact Hn|]. split; [reflexivity|]. split; [reflexivity|].
    split; [reflexivity|]. split; [exact Hp|].
    exact (proj1
             (callGemini_reply_text null_host a_base64 (js "image/png")
                (js "r.png") [] 200 (js "null") JNull Hn eq_refl eq_refl eq_refl)
             Hp).
Defined.
